(** * Terrain shape index tools ([tsi_tools.py]): model and properties

    A shallow embedding of the five functions of [tsi_tools.py] and of its
    stand-alone entry point.

    Modelling decisions, all of them about [arcpy], which the module calls
    but does not contain:
    - a point file (shapefile) is a [FeatureClass]: a spatial reference and a
      table of rows read and written in cursor order.  The point file and the
      cardinal output are two distinct datasets, passed by value;
    - a row carries the columns the module names: [FID], [SHAPE@XY], [Id],
      [RasElev], [Zhat] (added as 'ZHat', [arcpy] field names are not case
      sensitive) and [TSI].  A numeric column holds [None] where the record
      has no value for it: the table has no such field, or the value is null
      in a table that admits nulls;
    - [AddField_management] leaves a field that exists alone and gives a new
      field one value in every record the table has.  That value is a
      parameter, [Storage]: 0.0 in a shapefile, whose dBASE table has no
      null, and null in a geodatabase table.  The module's header and
      docstrings name the point files shapefiles, and the [FID] and [Id]
      fields it reads and writes are those of a shapefile;
    - rasters live in a workspace keyed by dataset name, since
      [raster_extract] creates and deletes one by name;
    - numbers are an interface [Float] without laws, so that every general
      theorem holds for any arithmetic, IEEE doubles included.  Two instances
      are given: binary64 floats, which compute, and the real numbers, in
      which [math.cos(math.radians(45))] has its mathematical value;
    - an exception raised by the cursors themselves (a missing column, a
      locked file) is outside the model; exceptions raised by the module's own
      arithmetic, by indexing, by a failed cell read and by describing a
      raster that does not exist are in it. *)

From Stdlib Require Import ZArith List String Reals Lra Floats.
From stdpp Require Import gmap strings list.

Local Open Scope Z_scope.

(** ** Numbers *)

(** Python's [float] with the operations the module uses.  [is_zero] is the
    test that makes [/] raise [ZeroDivisionError]; [of_int] is the implicit
    conversion of an [int] operand. *)
Class Float := {
  num : Type;
  fadd : num -> num -> num;
  fsub : num -> num -> num;
  fmul : num -> num -> num;
  fdiv : num -> num -> num;
  is_zero : num -> bool;
  of_int : Z -> num
}.

(** The two functions of Python's [math] module that the module calls. *)
Class Math (F : Float) := {
  cos : num -> num;
  radians : num -> num
}.

(** ** Exceptions and console output *)

Inductive Exn :=
| TypeError
| IndexError
| ZeroDivisionError
| ValueError
| ExecuteError
| IOError.

Inductive Msg :=
| ErrorOccurred
| Created
| ElevationAdded (elevationRaster : string)
| ZHatCalculated
| TSICalculated.

(** ** Data model *)

Record SpatialReference := {
  name : string;
  wkt : string
}.

Section Model.

Context {F : Float}.

Definition XY : Type := num * num.

Record Row := mkRow {
  FID : Z;
  SHAPE_XY : XY;
  Id : Z;
  RasElev : option num;
  Zhat : option num;
  TSI : option num
}.

Record FeatureClass := mkFeatureClass {
  spatialReference : SpatialReference;
  rows : list Row
}.

(** A raster: its spatial reference and what
    [float(str(GetCellValue_management(raster, '{0} {1}'.format(x, y))))]
    evaluates to; [None] when the call or the conversion raises. *)
Record Raster := mkRaster {
  rasterReference : SpatialReference;
  cell : XY -> option num
}.

(** What the module does to the outside world, in order. *)
Inductive Event :=
| printArc (m : Msg)
| print_exc (e : Exn)
| ProjectRaster_management (in_raster out_raster : string) (sr : SpatialReference)
| GetCellValue_management (in_raster : string) (location : XY)
| Delete_management (in_data : string).

(** [list(set(l))]: the elements of [l] once each, in an order the language
    does not fix. *)
Class SetOrder := {
  list_set : list Z -> list Z;
  list_set_NoDup : forall l, NoDup (list_set l);
  list_set_elem : forall l x, x ∈ list_set l <-> x ∈ l
}.

(** The external reprojection service behind [ProjectRaster_management]. *)
Class Reprojection := {
  project : Raster -> SpatialReference -> Raster
}.

Definition set_RasElev (v : num) (r : Row) : Row :=
  mkRow (FID r) (SHAPE_XY r) (Id r) (Some v) (Zhat r) (TSI r).

Definition set_Zhat (v : num) (r : Row) : Row :=
  mkRow (FID r) (SHAPE_XY r) (Id r) (RasElev r) (Some v) (TSI r).

Definition set_TSI (v : num) (r : Row) : Row :=
  mkRow (FID r) (SHAPE_XY r) (Id r) (RasElev r) (Zhat r) (Some v).

Definition with_rows (fc : FeatureClass) (t : list Row) : FeatureClass :=
  mkFeatureClass (spatialReference fc) t.

(** ** Fields *)

(** What a field added by [AddField_management] holds in the records the
    table already has. *)
Class Storage := {
  added_value : option num
}.

Context {T : Storage}.

(** The three fields the module adds. *)
Inductive Field :=
| Field_RasElev
| Field_ZHat
| Field_TSI.

(** One record when the field is added: a value the record has is kept. *)
Definition add_field (field_name : Field) (r : Row) : Row :=
  match field_name with
  | Field_RasElev =>
      match RasElev r with
      | Some _ => r
      | None => mkRow (FID r) (SHAPE_XY r) (Id r) added_value (Zhat r) (TSI r)
      end
  | Field_ZHat =>
      match Zhat r with
      | Some _ => r
      | None => mkRow (FID r) (SHAPE_XY r) (Id r) (RasElev r) added_value (TSI r)
      end
  | Field_TSI =>
      match TSI r with
      | Some _ => r
      | None => mkRow (FID r) (SHAPE_XY r) (Id r) (RasElev r) (Zhat r) added_value
      end
  end.

(** [arcpy.AddField_management(in_table, field_name, 'DOUBLE')]. *)
Definition AddField_management (in_table : FeatureClass) (field_name : Field)
    : FeatureClass :=
  with_rows in_table (map (add_field field_name) (rows in_table)).

(** ** Cursors *)

Definition SearchCursor (where_clause : Row -> bool) (table : list Row) : list Row :=
  filter (fun r => where_clause r = true) table.

(** [for row in UpdateCursor(...): body; cursor.updateRow(row)] with no
    [try] inside the loop: the rows are visited in order, the rows updated
    before an exception keep their update, the row that raises and the rows
    after it are left as they were. *)
Fixpoint UpdateCursor (where_clause : Row -> bool)
    (body : Row -> list Event * (Exn + Row)) (table : list Row)
    : list Row * list Event * option Exn :=
  match table with
  | [] => ([], [], None)
  | r :: rest =>
      if where_clause r then
        match body r with
        | (ev, inl e) => (r :: rest, ev, Some e)
        | (ev, inr r') =>
            let '(rest', ev', o) := UpdateCursor where_clause body rest in
            (r' :: rest', ev ++ ev', o)
        end
      else
        let '(rest', ev', o) := UpdateCursor where_clause body rest in
        (r :: rest', ev', o)
  end.

(** [insertCursor.insertRow([arcpy.Point(x, y), fid])]: the new record gets
    the next [FID]. *)
Definition insertRow (table : list Row) (xy : XY) (fid : Z) : list Row :=
  table ++ [mkRow (Z.of_nat (length table)) xy fid None None None].

(** The [except:] blocks: [printArc('An error occurred:')] and
    [traceback.print_exc()]. *)
Definition report (o : option Exn) : list Event :=
  match o with
  | Some e => [printArc ErrorOccurred; print_exc e]
  | None => []
  end.

(** ** create_cardinals *)

Section CreateCardinals.

Context {M : Math F}.

Definition subOffset (plotRadius : num) : num :=
  fmul (cos (radians (of_int 45))) plotRadius.

(** The eight points of one plot, in the order of the eight [insertRow]
    calls. *)
Definition offsets (plotRadius : num) (c : XY) : list XY :=
  let coordX := fst c in
  let coordY := snd c in
  let d := subOffset plotRadius in
  [ (coordX, fadd coordY plotRadius);
    (coordX, fsub coordY plotRadius);
    (fadd coordX plotRadius, coordY);
    (fsub coordX plotRadius, coordY);
    (fadd coordX d, fadd coordY d);
    (fadd coordX d, fsub coordY d);
    (fsub coordX d, fadd coordY d);
    (fsub coordX d, fsub coordY d) ].

(** The body of [for row in cursor] for one plot row. *)
Definition insert_cardinals (plotRadius : num) (out : list Row) (row : Row) : list Row :=
  let fid := FID row in
  fold_left (fun t xy => insertRow t xy fid) (offsets plotRadius (SHAPE_XY row)) out.

Definition create_cardinals (pointFile : FeatureClass) (plotRadius : num)
    : FeatureClass * list Event :=
  let out := mkFeatureClass (spatialReference pointFile) [] in
  (with_rows out (fold_left (insert_cardinals plotRadius) (rows pointFile) (rows out)),
   [printArc Created]).

End CreateCardinals.

(** ** extract_elevation *)

Abbreviation Workspace := (gmap string Raster).

Definition GetCellValue (ws : Workspace) (elevationRaster : string) (xy : XY)
    : Exn + num :=
  match ws !! elevationRaster with
  | None => inl ExecuteError
  | Some ras =>
      match cell ras xy with
      | None => inl ValueError
      | Some v => inr v
      end
  end.

Definition extract_body (ws : Workspace) (elevationRaster : string) (row : Row)
    : list Event * (Exn + Row) :=
  ([GetCellValue_management elevationRaster (SHAPE_XY row)],
   match GetCellValue ws elevationRaster (SHAPE_XY row) with
   | inl e => inl e
   | inr rasterValue => inr (set_RasElev rasterValue row)
   end).

Definition extract_elevation (pointFile : FeatureClass) (elevationRaster : string)
    (ws : Workspace) : FeatureClass * list Event :=
  let pointFile := AddField_management pointFile Field_RasElev in
  let '(t, ev, o) :=
    UpdateCursor (fun _ => true) (extract_body ws elevationRaster) (rows pointFile) in
  (with_rows pointFile t, ev ++ report o ++ [printArc (ElevationAdded elevationRaster)]).

(** ** raster_extract *)

Definition outRaster : string := "outraster.tif".

Section RasterExtract.

Context {G : Reprojection}.

(** [arcpy.Describe] of a dataset that does not exist raises [IOError] (the
    module is written in Python 2). *)
Definition raster_extract (pointFile : FeatureClass) (elevationRaster : string)
    (ws : Workspace) : Exn + (FeatureClass * Workspace * list Event) :=
  match ws !! elevationRaster with
  | None => inl IOError
  | Some ras =>
      if String.eqb (name (spatialReference pointFile)) (name (rasterReference ras))
      then
        let '(pf, ev) := extract_elevation pointFile elevationRaster ws in
        inr (pf, ws, ev)
      else
        let ws1 := <[outRaster := project ras (spatialReference pointFile)]> ws in
        let '(pf, ev) := extract_elevation pointFile outRaster ws1 in
        inr (pf, delete outRaster ws1,
             ProjectRaster_management elevationRaster outRaster (spatialReference pointFile)
               :: ev ++ [Delete_management outRaster])
  end.

End RasterExtract.

(** ** calculate_zhat *)

(** [l[i]] for a Python list: a negative index counts from the end. *)
Definition py_index {A} (l : list A) (i : Z) : Exn + A :=
  let n := Z.of_nat (length l) in
  let k := if i <? 0 then n + i else i in
  if (0 <=? k) && (k <? n) then
    match l !! Z.to_nat k with
    | Some a => inr a
    | None => inl IndexError
    end
  else inl IndexError.

(** [a - b] on two column values; a null operand raises [TypeError]. *)
Definition py_sub (a b : option num) : Exn + num :=
  match a, b with
  | Some x, Some y => inr (fsub x y)
  | _, _ => inl TypeError
  end.

(** [row[1] - pointElevs[i]]. *)
Definition deviation (pointElevs : list (option num)) (i : Z) (row : Row) : Exn + num :=
  match py_index pointElevs i with
  | inl e => inl e
  | inr pe => py_sub (RasElev row) pe
  end.

(** A list comprehension whose element expression may raise. *)
Fixpoint comprehension {A B} (f : A -> Exn + B) (l : list A) : Exn + list B :=
  match l with
  | [] => inr []
  | a :: l' =>
      match f a with
      | inl e => inl e
      | inr b =>
          match comprehension f l' with
          | inl e => inl e
          | inr bs => inr (b :: bs)
          end
      end
  end.

(** [sum(l)]: a left fold starting from the integer 0. *)
Definition py_sum (l : list num) : num := fold_left fadd l (of_int 0).

(** [sum(cardElevs)/len(cardElevs)]. *)
Definition mean (cardElevs : list num) : Exn + num :=
  match cardElevs with
  | [] => inl ZeroDivisionError
  | _ => inr (fdiv (py_sum cardElevs) (of_int (Z.of_nat (length cardElevs))))
  end.

Definition zhat_of (pointElevs : list (option num)) (cardinals : list Row) (i : Z)
    : Exn + num :=
  match comprehension (deviation pointElevs i)
          (SearchCursor (fun row => Id row =? i) cardinals) with
  | inl e => inl e
  | inr cardElevs => mean cardElevs
  end.

Definition write_zhat (i : Z) (zhat : num) (table : list Row) : list Row * list Event :=
  let '(t, ev, o) :=
    UpdateCursor (fun row => FID row =? i) (fun row => ([], inr (set_Zhat zhat row))) table in
  (t, ev ++ report o).

(** [for i in unique_ofids]: the list comprehension and the division are
    outside the [try], so an exception there leaves the function. *)
Fixpoint zhat_loop (pointElevs : list (option num)) (cardinals : list Row)
    (unique_ofids : list Z) (table : list Row) : list Row * list Event * option Exn :=
  match unique_ofids with
  | [] => (table, [], None)
  | i :: rest =>
      match zhat_of pointElevs cardinals i with
      | inl e => (table, [], Some e)
      | inr zhat =>
          let '(t, ev) := write_zhat i zhat table in
          let '(t', ev', o) := zhat_loop pointElevs cardinals rest t in
          (t', ev ++ ev', o)
      end
  end.

Section CalculateZhat.

Context {S : SetOrder}.

Definition calculate_zhat (pointFile cardinalFile : FeatureClass)
    : FeatureClass * list Event * option Exn :=
  let ofids := map Id (rows cardinalFile) in
  let unique_ofids := list_set ofids in
  let pointElevs := map RasElev (rows pointFile) in
  let pointFile := AddField_management pointFile Field_ZHat in
  let '(t, ev, o) := zhat_loop pointElevs (rows cardinalFile) unique_ofids (rows pointFile) in
  (with_rows pointFile t,
   ev ++ match o with None => [printArc ZHatCalculated] | Some _ => [] end,
   o).

End CalculateZhat.

(** ** calculate_tsi *)

(** [a / b] on a column value and a float. *)
Definition py_div (a : option num) (b : num) : Exn + num :=
  match a with
  | None => inl TypeError
  | Some x => if is_zero b then inl ZeroDivisionError else inr (fdiv x b)
  end.

Definition tsi_body (plotRadius : num) (row : Row) : list Event * (Exn + Row) :=
  ([], match py_div (Zhat row) plotRadius with
       | inl e => inl e
       | inr v => inr (set_TSI v row)
       end).

Definition calculate_tsi (pointFile : FeatureClass) (plotRadius : num)
    : FeatureClass * list Event :=
  let pointFile := AddField_management pointFile Field_TSI in
  let '(t, ev, o) := UpdateCursor (fun _ => true) (tsi_body plotRadius) (rows pointFile) in
  (with_rows pointFile t, ev ++ report o ++ [printArc TSICalculated]).

(** ** The stand-alone run *)

Record Run := mkRun {
  run_plots : FeatureClass;
  run_cardinals : FeatureClass;
  run_workspace : Workspace;
  run_console : list Event;
  run_uncaught : option Exn
}.

Section Main.

Context {M : Math F} {S : SetOrder} {G : Reprojection}.

Definition main (inputPlots : FeatureClass) (inputRadius : num) (inputRaster : string)
    (ws : Workspace) : Run :=
  let '(outputCardinals, ev0) := create_cardinals inputPlots inputRadius in
  match raster_extract inputPlots inputRaster ws with
  | inl e => mkRun inputPlots outputCardinals ws ev0 (Some e)
  | inr (plots1, ws1, ev1) =>
      match raster_extract outputCardinals inputRaster ws1 with
      | inl e => mkRun plots1 outputCardinals ws1 (ev0 ++ ev1) (Some e)
      | inr (cards1, ws2, ev2) =>
          let '(plots2, ev3, o) := calculate_zhat plots1 cards1 in
          match o with
          | Some e => mkRun plots2 cards1 ws2 (ev0 ++ ev1 ++ ev2 ++ ev3) (Some e)
          | None =>
              let '(plots3, ev4) := calculate_tsi plots2 inputRadius in
              mkRun plots3 cards1 ws2 (ev0 ++ ev1 ++ ev2 ++ ev3 ++ ev4) None
          end
      end
  end.

End Main.

End Model.

Abbreviation Workspace := (gmap string Raster).

Arguments add_field {F T} field_name r : simpl never.

(** The cases of [add_field]: which field, and whether the record has a
    value for it. *)
Ltac field_cases f r :=
  destruct f; unfold add_field;
  [destruct (RasElev r) eqn:?|destruct (Zhat r) eqn:?|destruct (TSI r) eqn:?].

(** ** Instances *)

(** IEEE 754 binary64, the representation of a Python [float].  [of_int] is
    exact on the integers the module converts: 45 and the length of a list. *)
Definition binary64 : Float := {|
  num := float;
  fadd := PrimFloat.add;
  fsub := PrimFloat.sub;
  fmul := PrimFloat.mul;
  fdiv := PrimFloat.div;
  is_zero := fun x => PrimFloat.eqb x 0%float;
  of_int := fun z =>
    if z <? 0 then PrimFloat.opp (PrimFloat.of_uint63 (Uint63.of_Z (- z)))
    else PrimFloat.of_uint63 (Uint63.of_Z z)
|}.

(** Exact real arithmetic. *)
Definition real : Float := {|
  num := R;
  fadd := Rplus;
  fsub := Rminus;
  fmul := Rmult;
  fdiv := Rdiv;
  is_zero := fun x => if Req_dec_T x 0%R then true else false;
  of_int := IZR
|}.

Definition real_math : Math real :=
  Build_Math real Rtrigo_def.cos (fun x : R => (x * (PI / 180))%R).

(** A shapefile: its attribute table is a dBASE file, which has no null, so
    a new DOUBLE field reads 0.0 in every record. *)
Definition shapefile {F : Float} : Storage := {| added_value := Some (of_int 0) |}.

(** A geodatabase table: a new field is null in every record. *)
Definition geodatabase {F : Float} : Storage := {| added_value := None |}.

(** One enumeration order for [list(set(l))]: first occurrences, in the
    order of the list. *)
Definition first_seen : SetOrder := {|
  list_set := remove_dups;
  list_set_NoDup := NoDup_remove_dups;
  list_set_elem := fun l x => elem_of_remove_dups l x
|}.

(** A reprojection that relabels the raster and keeps its cells. *)
Definition relabel {F : Float} : Reprojection := {|
  project := fun ras sr => mkRaster sr (cell ras)
|}.

(** ** Vocabulary of the statements *)

Section Vocabulary.

Context {F : Float}.

Definition is_projection (e : Event) : bool :=
  match e with
  | ProjectRaster_management _ _ _ => true
  | _ => false
  end.

(** The raster an event reads a cell from, if it reads one. *)
Definition sampled (e : Event) : option string :=
  match e with
  | GetCellValue_management n _ => Some n
  | _ => None
  end.

(** An event of a sampling batch on raster [n]: no reprojection, and no cell
    read from another raster. *)
Definition samples_only (n : string) (e : Event) : Prop :=
  is_projection e = false /\ (sampled e = None \/ sampled e = Some n).

(** A row without its [RasElev], [Zhat] or [TSI] column. *)
Definition beside_RasElev (r : Row) := (FID r, SHAPE_XY r, Id r, Zhat r, TSI r).
Definition beside_Zhat (r : Row) := (FID r, SHAPE_XY r, Id r, RasElev r, TSI r).
Definition beside_TSI (r : Row) := (FID r, SHAPE_XY r, Id r, RasElev r, Zhat r).

(** The column of a field. *)
Definition field_value (f : Field) (r : Row) : option num :=
  match f with
  | Field_RasElev => RasElev r
  | Field_ZHat => Zhat r
  | Field_TSI => TSI r
  end.

(** A record that adding the field [f] leaves as it is: it has a value for
    [f], or the table admits nulls. *)
Definition settled {T : Storage} (f : Field) (r : Row) : Prop :=
  field_value f r = None -> added_value = None.

(** Two point files that differ at most in the column left out by [proj]. *)
Definition same_beside {A} (proj : Row -> A) (after before : FeatureClass) : Prop :=
  spatialReference after = spatialReference before
  /\ map proj (rows after) = map proj (rows before).

(** The aggregation in the words of the specification, for one plot [p]:
    the cardinal records whose owning-plot identifier is that of [p], those
    of them that have an elevation, the deviation of each from the elevation
    of [p] itself, and their mean over as many as there are; undefined when
    there is none. *)
Definition computeZHat_spec (cardinals : list Row) (p : Row) : option num :=
  let valid := omap RasElev (SearchCursor (fun c => Id c =? FID p) cardinals) in
  match RasElev p, valid with
  | Some pe, _ :: _ =>
      Some (fdiv (py_sum (map (fun ce => fsub ce pe) valid))
                 (of_int (Z.of_nat (length valid))))
  | _, _ => None
  end.

End Vocabulary.

(** ** Example data *)

Section Binary64Data.

#[local] Existing Instance binary64.

Definition utm17 : SpatialReference :=
  {| name := "NAD_1983_UTM_Zone_17N"; wkt := "PROJCS[UTM17,GEOGCS[GCS_North_American_1983]]" |}.

(** A reference with the same name and another definition. *)
Definition utm17_custom : SpatialReference :=
  {| name := "NAD_1983_UTM_Zone_17N"; wkt := "PROJCS[UTM17,GEOGCS[GCS_WGS_1984]]" |}.

Definition state_plane : SpatialReference :=
  {| name := "NAD_1983_StatePlane_Kentucky"; wkt := "PROJCS[KY,GEOGCS[GCS_North_American_1983]]" |}.

Definition point (fid : Z) (x y : float) : Row := mkRow fid (x, y) 0 None None None.

(** A raster that covers the half plane [1 <= x], at elevation 7. *)
Definition half_plane (sr : SpatialReference) : Raster :=
  mkRaster sr (fun xy => if PrimFloat.ltb (fst xy) 1%float then None else Some 7%float).

Definition three_points : FeatureClass :=
  mkFeatureClass utm17 [point 0 1 1; point 1 0 0; point 2 2 2]%float.

Definition dem_workspace (sr : SpatialReference) : Workspace :=
  {[ "dem.tif"%string := half_plane sr ]}.

(** The scenario of the specification: a plot at elevation 50 and its eight
    cardinal elevations. *)
Definition sampled_point (fid ofid : Z) (elev : option float) : Row :=
  mkRow fid (0, 0)%float ofid elev None None.

Definition one_plot : FeatureClass :=
  mkFeatureClass utm17 [sampled_point 0 0 (Some 50%float)].

Definition eight_cardinals : FeatureClass :=
  mkFeatureClass utm17
    (imap (fun j e => sampled_point (Z.of_nat j) 0 (Some e))
       [55; 45; 60; 40; 52; 48; 58; 42]%float).

(** Two plots read through a layer whose selection holds the records with
    [FID] 1 and 2, and one sampled cardinal record for each. *)
Definition selected_plots : FeatureClass :=
  mkFeatureClass utm17 [sampled_point 1 0 (Some 10%float); sampled_point 2 0 (Some 20%float)].

Definition selected_cardinals : FeatureClass :=
  mkFeatureClass utm17 [sampled_point 0 1 (Some 13%float); sampled_point 1 2 (Some 26%float)].

(** Two plots, the first without z-hat. *)
Definition second_has_zhat : FeatureClass :=
  mkFeatureClass utm17
    [ mkRow 0 (0, 0)%float 0 (Some 50%float) None None;
      mkRow 1 (9, 9)%float 0 (Some 60%float) (Some 3%float) None ].

End Binary64Data.

Section RealData.

#[local] Existing Instance real.






(** A plot at the origin. *)
Definition inside_plot : Row := mkRow 0 (0%R, 0%R) 0 None None None.

End RealData.

(** ** Vocabulary of the further properties *)

Section FurtherVocabulary.

Context {F : Float}.

(** The raster a batch of [raster_extract] reads its cells from: the given
    one when the names of the two references are equal, its projection
    otherwise. *)
Definition effective_raster {G : Reprojection} (ras : Raster) (sr : SpatialReference)
    : Raster :=
  if String.eqb (name sr) (name (rasterReference ras)) then ras else project ras sr.

(** The mean deviation of an elevation function over the eight points around
    a centre: what the run writes as z-hat when every read succeeds. *)
Definition ring_mean {M : Math F} (elev : XY -> num) (plotRadius : num) (c : XY) : num :=
  fdiv (py_sum (map (fun xy => fsub (elev xy) (elev c)) (offsets plotRadius c)))
       (of_int 8).

(** The row of a plot after a complete run. *)
Definition finished {M : Math F} (elev : XY -> num) (plotRadius : num) (p : Row) : Row :=
  mkRow (FID p) (SHAPE_XY p) (Id p)
    (Some (elev (SHAPE_XY p)))
    (Some (ring_mean elev plotRadius (SHAPE_XY p)))
    (Some (fdiv (ring_mean elev plotRadius (SHAPE_XY p)) plotRadius)).

(** The identifier and the coordinates of the cardinal records of one plot,
    as [create_cardinals] writes them. *)
Definition block {M : Math F} (plotRadius : num) (p : Row) : list (Z * XY) :=
  map (fun xy => (FID p, xy)) (offsets plotRadius (SHAPE_XY p)).

(** How many times a console shows a call of [ProjectRaster_management]. *)
Definition projections (log : list Event) : nat :=
  length (filter (fun e => is_projection e = true) log).

(** Whether the body of a loop raises on a row. *)
Definition raises (body : Row -> list Event * (Exn + Row)) (r : Row) : Prop :=
  exists e, (body r).2 = inl e.

End FurtherVocabulary.

(** ** Further instances and example data *)

(** Another enumeration order for [list(set(l))]: the reverse of
    [first_seen]. *)
Definition last_seen : SetOrder := {|
  list_set := fun l => reverse (remove_dups l);
  list_set_NoDup := fun l =>
    proj2 (NoDup_Permutation_proper _ _ (reverse_Permutation (remove_dups l)))
      (NoDup_remove_dups l);
  list_set_elem := fun l x =>
    iff_trans (elem_of_reverse x (remove_dups l)) (elem_of_remove_dups l x)
|}.

Section FurtherRealData.

#[local] Existing Instance real.

(** The elevation of a tilted plane and of a bowl centred at the origin. *)
Definition plane (a b c0 : R) (xy : XY) : R := (a * fst xy + b * snd xy + c0)%R.
Definition bowl (xy : XY) : R := (fst xy * fst xy + snd xy * snd xy)%R.

(** A raster with a value everywhere. *)
Definition surface (elev : XY -> R) : Raster := mkRaster utm17 (fun xy => Some (elev xy)).

Definition surface_workspace (elev : XY -> R) : Workspace :=
  {[ "dem.tif"%string := surface elev ]}.

Definition centre_plot : FeatureClass := mkFeatureClass utm17 [inside_plot].

(** A workspace whose raster has another spatial reference than the plots. *)
Definition foreign_workspace : Workspace :=
  {[ "dem.tif"%string := mkRaster state_plane (fun xy => Some (plane 2 3 5 xy)) ]}.

End FurtherRealData.

Section FurtherBinary64Data.

#[local] Existing Instance binary64.

(** Two sampled plots and one sampled cardinal record for each, the record
    of the second plot first. *)
Definition two_sampled_plots : FeatureClass :=
  mkFeatureClass utm17 [sampled_point 0 0 (Some 10%float); sampled_point 1 0 (Some 20%float)].

Definition two_sampled_cardinals : FeatureClass :=
  mkFeatureClass utm17 [sampled_point 0 1 (Some 26%float); sampled_point 1 0 (Some 13%float)].

End FurtherBinary64Data.

(** * Properties *)

(** ** Cardinal generation *)

Section CardinalFacts.

Context {F : Float} {T : Storage} {M : Math F}.

Lemma offsets_length plotRadius c : length (offsets plotRadius c) = 8%nat.
Proof. reflexivity. Qed.

Lemma insertRow_fold_Id fid l out :
  map Id (fold_left (fun t xy => insertRow t xy fid) l out)
  = map Id out ++ replicate (length l) fid.
Proof.
  revert out. induction l as [|xy l IH]; intros out; simpl.
  - by rewrite app_nil_r.
  - rewrite IH. unfold insertRow. rewrite map_app. simpl.
    by rewrite <- app_assoc.
Qed.

Lemma insertRow_fold_XY fid l out :
  map SHAPE_XY (fold_left (fun t xy => insertRow t xy fid) l out)
  = map SHAPE_XY out ++ l.
Proof.
  revert out. induction l as [|xy l IH]; intros out; simpl.
  - by rewrite app_nil_r.
  - rewrite IH. unfold insertRow. rewrite map_app. simpl.
    by rewrite <- app_assoc.
Qed.

Lemma insertRow_fold_FID fid l out :
  map FID (fold_left (fun t xy => insertRow t xy fid) l out)
  = map FID out ++ map Z.of_nat (seq (length out) (length l)).
Proof.
  revert out. induction l as [|xy l IH]; intros out; simpl.
  - by rewrite app_nil_r.
  - rewrite IH. unfold insertRow. rewrite map_app, length_app. simpl.
    rewrite <- app_assoc. simpl. by rewrite Nat.add_1_r.
Qed.

Lemma insert_cardinals_fold_Id plotRadius plots out :
  map Id (fold_left (insert_cardinals plotRadius) plots out)
  = map Id out ++ flat_map (fun p => replicate 8 (FID p)) plots.
Proof.
  revert out. induction plots as [|p plots IH]; intros out; simpl.
  - by rewrite app_nil_r.
  - rewrite IH. unfold insert_cardinals. rewrite insertRow_fold_Id.
    by rewrite <- app_assoc.
Qed.

Lemma insert_cardinals_fold_XY plotRadius plots out :
  map SHAPE_XY (fold_left (insert_cardinals plotRadius) plots out)
  = map SHAPE_XY out ++ flat_map (fun p => offsets plotRadius (SHAPE_XY p)) plots.
Proof.
  revert out. induction plots as [|p plots IH]; intros out; simpl.
  - by rewrite app_nil_r.
  - rewrite IH. unfold insert_cardinals. rewrite insertRow_fold_XY.
    by rewrite <- app_assoc.
Qed.


Lemma create_cardinals_Id pointFile plotRadius :
  map Id (rows (create_cardinals pointFile plotRadius).1)
  = flat_map (fun p => replicate 8 (FID p)) (rows pointFile).
Proof. unfold create_cardinals. simpl. by rewrite insert_cardinals_fold_Id. Qed.

Lemma create_cardinals_XY pointFile plotRadius :
  map SHAPE_XY (rows (create_cardinals pointFile plotRadius).1)
  = flat_map (fun p => offsets plotRadius (SHAPE_XY p)) (rows pointFile).
Proof. unfold create_cardinals. simpl. by rewrite insert_cardinals_fold_XY. Qed.

Lemma create_cardinals_reference pointFile plotRadius :
  spatialReference (create_cardinals pointFile plotRadius).1 = spatialReference pointFile.
Proof. reflexivity. Qed.

Lemma flat_map_replicate_length {A} (f : A -> Z) (l : list A) :
  length (flat_map (fun p => replicate 8 (f p)) l) = (8 * length l)%nat.
Proof.
  induction l as [|a l IH]; [done|].
  cbn [flat_map]. rewrite length_app, IH, length_replicate. simpl. lia.
Qed.

Lemma flat_map_replicate_elem {A} (f : A -> Z) (l : list A) (i : Z) :
  i ∈ flat_map (fun p => replicate 8 (f p)) l <-> exists p, p ∈ l /\ i = f p.
Proof.
  rewrite list_elem_of_In, in_flat_map. split.
  - intros (p & Hp & Hi). exists p. split; [by apply list_elem_of_In|].
    apply list_elem_of_In in Hi. by apply elem_of_replicate in Hi as [-> _].
  - intros (p & Hp & ->). exists p. split; [by apply list_elem_of_In|].
    apply list_elem_of_In, elem_of_replicate. split; [done|lia].
Qed.




(** C7.  [create_cardinals] writes, for every row of the point file and in
    the order of the rows, exactly eight records whose [Id] column is that
    row's [FID]: the [Id] column of the output is the [FID] column of the
    input with every entry repeated eight times.  So the output has eight
    times as many records as there are plots, and the [Id] of every cardinal
    record is the [FID] of a plot of the input. *)
Theorem create_cardinals_eight_per_plot :
  forall (pointFile : FeatureClass) (plotRadius : num),
    let cardinals := (create_cardinals pointFile plotRadius).1 in
    map Id (rows cardinals) = flat_map (fun p => replicate 8 (FID p)) (rows pointFile)
    /\ length (rows cardinals) = (8 * length (rows pointFile))%nat
    /\ Forall (fun c => exists p, p ∈ rows pointFile /\ Id c = FID p) (rows cardinals).
Proof.
  intros pointFile plotRadius cardinals.
  pose proof (create_cardinals_Id pointFile plotRadius) as HId.
  fold cardinals in HId.
  split; [done|]. split.
  - rewrite <- (length_map Id), HId. apply flat_map_replicate_length.
  - apply Forall_forall. intros c Hc.
    apply (flat_map_replicate_elem FID (rows pointFile) (Id c)).
    rewrite <- HId. apply list_elem_of_In, in_map, list_elem_of_In, Hc.
Qed.

End CardinalFacts.

Lemma cos_PI4_sqrt : Rtrigo_def.cos (PI / 4) = (R_sqrt.sqrt 2 / 2)%R.
Proof.
  rewrite cos_PI4.
  assert (H : (R_sqrt.sqrt 2 * R_sqrt.sqrt 2 = 2)%R) by (apply sqrt_sqrt; lra).
  assert (H2 : (R_sqrt.sqrt 2 <> 0)%R) by (intros E; rewrite E in H; lra).
  field_simplify_eq; [lra|done].
Qed.

Lemma cos_45_degrees : Rtrigo_def.cos (IZR 45 * (PI / 180)) = (R_sqrt.sqrt 2 / 2)%R.
Proof.
  replace (IZR 45 * (PI / 180))%R with (PI / 4)%R by field.
  apply cos_PI4_sqrt.
Qed.

(** C2.  In exact arithmetic, the diagonal offset computed by
    [create_cardinals] is [d = r * cos(45 degrees) = r * sqrt 2 / 2], and the
    coordinates written for the plots are, plot after plot, the eight points
    N, S, E, W, NE, SE, NW, SW in that order.  The statement holds for every
    radius, so in particular for [r > 0]; the point file is an argument that
    the function only reads. *)
Theorem create_cardinals_offsets :
  forall (pointFile : @FeatureClass real) (r : R),
    let d := (r * (R_sqrt.sqrt 2 / 2))%R in
    @subOffset real real_math r = (r * Rtrigo_def.cos (PI / 4))%R
    /\ @subOffset real real_math r = d
    /\ map SHAPE_XY (rows (@create_cardinals real real_math pointFile r).1)
       = flat_map (fun p : @Row real =>
           let x := fst (SHAPE_XY p) in
           let y := snd (SHAPE_XY p) in
           [ (x, y + r); (x, y - r); (x + r, y); (x - r, y);
             (x + d, y + d); (x + d, y - d); (x - d, y + d); (x - d, y - d) ]%R)
           (rows pointFile).
Proof.
  intros pointFile r d.
  assert (Hd : @subOffset real real_math r = d).
  { unfold subOffset, d. simpl. rewrite cos_45_degrees. lra. }
  split; [|split; [done|]].
  - rewrite Hd. unfold d. by rewrite cos_PI4_sqrt.
  - rewrite create_cardinals_XY. apply flat_map_ext. intros p.
    unfold offsets. rewrite Hd. reflexivity.
Qed.

(** ** Cursor loops *)

Section CursorFacts.

Context {F : Float} {T : Storage}.

Implicit Types (t : list Row) (body : Row -> list Event * (Exn + Row)).

Lemma UpdateCursor_cons_raise w body r t ev e :
  w r = true -> body r = (ev, inl e) ->
  UpdateCursor w body (r :: t) = (r :: t, ev, Some e).
Proof. intros Hw Hb. simpl. by rewrite Hw, Hb. Qed.

Lemma UpdateCursor_cons_update w body r t ev r' :
  w r = true -> body r = (ev, inr r') ->
  UpdateCursor w body (r :: t)
  = (r' :: (UpdateCursor w body t).1.1, ev ++ (UpdateCursor w body t).1.2,
     (UpdateCursor w body t).2).
Proof.
  intros Hw Hb. simpl. rewrite Hw, Hb.
  by destruct (UpdateCursor w body t) as [[? ?] ?].
Qed.

Lemma UpdateCursor_cons_skip w body r t :
  w r = false ->
  UpdateCursor w body (r :: t)
  = (r :: (UpdateCursor w body t).1.1, (UpdateCursor w body t).1.2,
     (UpdateCursor w body t).2).
Proof.
  intros Hw. simpl. rewrite Hw.
  by destruct (UpdateCursor w body t) as [[? ?] ?].
Qed.

(** The three ways a cursor loop treats its first row. *)
Lemma UpdateCursor_cons_cases w body r t :
  (exists ev e, w r = true /\ body r = (ev, inl e)
      /\ UpdateCursor w body (r :: t) = (r :: t, ev, Some e))
  \/ (exists ev r', w r = true /\ body r = (ev, inr r')
      /\ UpdateCursor w body (r :: t)
         = (r' :: (UpdateCursor w body t).1.1, ev ++ (UpdateCursor w body t).1.2,
            (UpdateCursor w body t).2))
  \/ (w r = false
      /\ UpdateCursor w body (r :: t)
         = (r :: (UpdateCursor w body t).1.1, (UpdateCursor w body t).1.2,
            (UpdateCursor w body t).2)).
Proof.
  destruct (w r) eqn:Hw.
  - destruct (body r) as [ev [e|r']] eqn:Hb.
    + left. exists ev, e. eauto using UpdateCursor_cons_raise.
    + right. left. exists ev, r'. eauto using UpdateCursor_cons_update.
  - right. right. eauto using UpdateCursor_cons_skip.
Qed.

Lemma UpdateCursor_length w body t :
  length (UpdateCursor w body t).1.1 = length t.
Proof.
  induction t as [|r t IH]; [done|].
  destruct (UpdateCursor_cons_cases w body r t)
    as [(ev & e & _ & _ & ->)|[(ev & r' & _ & _ & ->)|[_ ->]]]; simpl; congruence.
Qed.

(** A column that the loop body does not write is the same after the loop,
    whether or not the loop raised. *)
Lemma UpdateCursor_frame {A} (proj : Row -> A) w body t :
  (forall r ev r', body r = (ev, inr r') -> proj r' = proj r) ->
  map proj (UpdateCursor w body t).1.1 = map proj t.
Proof.
  intros Hbody. induction t as [|r t IH]; [done|].
  destruct (UpdateCursor_cons_cases w body r t)
    as [(ev & e & _ & _ & ->)|[(ev & r' & _ & Hb & ->)|[_ ->]]]; simpl.
  - done.
  - by rewrite IH, (Hbody _ _ _ Hb).
  - by rewrite IH.
Qed.

(** Every event of the loop is an event of some body. *)
Lemma UpdateCursor_events (P : Event -> Prop) w body t :
  (forall r, Forall P (body r).1) ->
  Forall P (UpdateCursor w body t).1.2.
Proof.
  intros Hbody. induction t as [|r t IH]; [by constructor|].
  destruct (UpdateCursor_cons_cases w body r t)
    as [(ev & e & _ & Hb & ->)|[(ev & r' & _ & Hb & ->)|[_ ->]]]; simpl.
  - specialize (Hbody r). by rewrite Hb in Hbody.
  - apply Forall_app. split; [|done].
    specialize (Hbody r). by rewrite Hb in Hbody.
  - done.
Qed.

(** A loop over all rows raises at the first row whose body raises: the rows
    from that one on are untouched. *)
Lemma UpdateCursor_raise body t k r e :
  t !! k = Some r ->
  (body r).2 = inl e ->
  (forall j x, (j < k)%nat -> t !! j = Some x -> exists x', (body x).2 = inr x') ->
  (UpdateCursor (fun _ => true) body t).2 = Some e
  /\ forall j, (k <= j)%nat -> (UpdateCursor (fun _ => true) body t).1.1 !! j = t !! j.
Proof.
  revert k. induction t as [|a t IH]; intros k Hk He Hpre; [done|].
  destruct k as [|k].
  - simpl in Hk. injection Hk as ->.
    destruct (body r) as [ev s] eqn:Hb. simpl in He. subst s.
    by rewrite (UpdateCursor_cons_raise _ _ _ _ ev e).
  - simpl in Hk.
    destruct (Hpre 0%nat a) as [a' Ha']; [lia|done|].
    destruct (body a) as [ev s] eqn:Hb. simpl in Ha'. subst s.
    rewrite (UpdateCursor_cons_update _ _ _ _ ev a') by done.
    destruct (IH k Hk He) as [Ho Hrest].
    { intros j x Hj Hx. apply (Hpre (S j) x); [lia|done]. }
    split; [done|]. intros [|j] Hj; [lia|]. simpl. apply Hrest. lia.
Qed.

(** A row is updated when its body and the bodies of all rows before it
    succeed. *)
Lemma UpdateCursor_update body t k r r' :
  t !! k = Some r ->
  (body r).2 = inr r' ->
  (forall j x, (j < k)%nat -> t !! j = Some x -> exists x', (body x).2 = inr x') ->
  (UpdateCursor (fun _ => true) body t).1.1 !! k = Some r'.
Proof.
  revert k. induction t as [|a t IH]; intros k Hk Hr Hpre; [done|].
  destruct k as [|k].
  - simpl in Hk. injection Hk as ->.
    destruct (body r) as [ev s] eqn:Hb. simpl in Hr. subst s.
    by rewrite (UpdateCursor_cons_update _ _ _ _ ev r').
  - simpl in Hk.
    destruct (Hpre 0%nat a) as [a' Ha']; [lia|done|].
    destruct (body a) as [ev s] eqn:Hb. simpl in Ha'. subst s.
    rewrite (UpdateCursor_cons_update _ _ _ _ ev a') by done.
    simpl. apply IH; [done|done|].
    intros j x Hj Hx. apply (Hpre (S j) x); [lia|done].
Qed.

(** A row whose body raises is never written by a loop over all rows. *)
Lemma UpdateCursor_kept body t k r e :
  t !! k = Some r ->
  (body r).2 = inl e ->
  (UpdateCursor (fun _ => true) body t).1.1 !! k = Some r
  /\ exists e', (UpdateCursor (fun _ => true) body t).2 = Some e'.
Proof.
  revert k. induction t as [|a t IH]; intros k Hk He; [done|].
  destruct (UpdateCursor_cons_cases (fun _ => true) body a t)
    as [(ev & e0 & _ & Hb & ->)|[(ev & a' & _ & Hb & ->)|[? _]]]; [| |done].
  - simpl. eauto.
  - destruct k as [|k]; simpl in Hk.
    + injection Hk as ->. rewrite Hb in He. done.
    + simpl. by apply IH.
Qed.

(** The loop stops for good: from a row whose body raises on, every row is
    as it was, whatever happened before it. *)
Lemma UpdateCursor_kept_from body t k r e :
  t !! k = Some r ->
  (body r).2 = inl e ->
  forall j, (k <= j)%nat -> (UpdateCursor (fun _ => true) body t).1.1 !! j = t !! j.
Proof.
  revert k. induction t as [|a t IH]; intros k Hk He j Hj; [done|].
  destruct (UpdateCursor_cons_cases (fun _ => true) body a t)
    as [(ev & e0 & _ & Hb & ->)|[(ev & a' & _ & Hb & ->)|[? _]]]; [done| |done].
  destruct k as [|k]; simpl in Hk.
  - injection Hk as ->. rewrite Hb in He. done.
  - destruct j as [|j]; [lia|]. simpl. apply (IH k); [done|done|lia].
Qed.

(** The exception of a loop is the one some row's body raised. *)
Lemma UpdateCursor_raised_by body t e :
  (UpdateCursor (fun _ => true) body t).2 = Some e ->
  exists r, r ∈ t /\ (body r).2 = inl e.
Proof.
  induction t as [|a t IH]; [done|].
  destruct (UpdateCursor_cons_cases (fun _ => true) body a t)
    as [(ev & e0 & _ & Hb & ->)|[(ev & a' & _ & Hb & ->)|[? _]]]; [| |done]; simpl.
  - intros [= <-]. exists a. split; [by left|by rewrite Hb].
  - intros Ho. destruct (IH Ho) as (r & Hr & He). exists r. split; [by right|done].
Qed.

(** A property of the rows that every update keeps holds after the loop. *)
Lemma UpdateCursor_Forall (P : Row -> Prop) w body t :
  (forall r ev r', P r -> body r = (ev, inr r') -> P r') ->
  Forall P t -> Forall P (UpdateCursor w body t).1.1.
Proof.
  intros Hb. induction 1 as [|a t Ha Ht IH]; [constructor|].
  destruct (UpdateCursor_cons_cases w body a t)
    as [(ev & e0 & _ & _ & ->)|[(ev & a' & _ & Hba & ->)|[_ ->]]]; simpl.
  - by constructor.
  - constructor; [by apply (Hb a ev)|done].
  - by constructor.
Qed.

(** A loop whose bodies print nothing prints nothing. *)
Lemma UpdateCursor_silent w body t :
  (forall r, (body r).1 = []) -> (UpdateCursor w body t).1.2 = [].
Proof.
  intros Hb. induction t as [|a t IH]; [done|].
  destruct (UpdateCursor_cons_cases w body a t)
    as [(ev & e0 & _ & Ha & ->)|[(ev & a' & _ & Ha & ->)|[_ ->]]]; simpl.
  - specialize (Hb a). by rewrite Ha in Hb.
  - specialize (Hb a). rewrite Ha in Hb. simpl in Hb. by rewrite Hb, IH.
  - done.
Qed.

(** A loop whose body never raises is a map over the selected rows. *)
Lemma UpdateCursor_total w (g : Row -> Row) t :
  UpdateCursor w (fun row => ([], inr (g row))) t
  = (map (fun row => if w row then g row else row) t, [], None).
Proof.
  induction t as [|r t IH]; [done|].
  simpl. rewrite IH. by destruct (w r).
Qed.

End CursorFacts.

(** ** Added fields *)

Section FieldFacts.

Context {F : Float} {T : Storage}.

Lemma AddField_rows pointFile f :
  rows (AddField_management pointFile f) = map (add_field f) (rows pointFile).
Proof. reflexivity. Qed.

Lemma AddField_lookup pointFile f k :
  rows (AddField_management pointFile f) !! k = add_field f <$> rows pointFile !! k.
Proof. apply list_lookup_fmap. Qed.

Lemma AddField_length pointFile f :
  length (rows (AddField_management pointFile f)) = length (rows pointFile).
Proof. apply length_map. Qed.

(** Adding a field changes no other column. *)
Lemma add_field_FID f r : FID (add_field f r) = FID r.
Proof. by field_cases f r. Qed.

Lemma add_field_SHAPE_XY f r : SHAPE_XY (add_field f r) = SHAPE_XY r.
Proof. by field_cases f r. Qed.

Lemma add_field_Id f r : Id (add_field f r) = Id r.
Proof. by field_cases f r. Qed.

(** The column of the field after it is added. *)
Lemma add_field_value f r :
  field_value f (add_field f r)
  = match field_value f r with Some v => Some v | None => added_value end.
Proof.
  destruct f; unfold add_field; simpl;
    [destruct (RasElev r) eqn:E|destruct (Zhat r) eqn:E|destruct (TSI r) eqn:E];
    simpl; by rewrite ?E.
Qed.

(** The other two columns. *)
Lemma add_field_other f g r : f <> g -> field_value g (add_field f r) = field_value g r.
Proof.
  intros Hne.
  destruct f, g; try done; unfold add_field; simpl;
    first [by destruct (RasElev r)|by destruct (Zhat r)|by destruct (TSI r)].
Qed.

(** A record is settled for a field when adding the field leaves it as it
    is: it has a value, or the table admits nulls. *)
Lemma settled_add_field f r :
  settled f r <-> add_field f r = r.
Proof.
  unfold settled, add_field. destruct f, r as [fid xy i e z t]; simpl.
  - destruct e; [by split|]. split; [intros H; by rewrite H|]. by intros [= ->].
  - destruct z; [by split|]. split; [intros H; by rewrite H|]. by intros [= ->].
  - destruct t; [by split|]. split; [intros H; by rewrite H|]. by intros [= ->].
Qed.

Lemma add_field_settled f r : settled f (add_field f r).
Proof.
  unfold settled. rewrite add_field_value.
  destruct (field_value f r); [done|]. by destruct added_value.
Qed.

Lemma add_field_idem f r : add_field f (add_field f r) = add_field f r.
Proof. apply settled_add_field, add_field_settled. Qed.

Lemma AddField_settled pointFile f :
  Forall (settled f) (rows pointFile) -> AddField_management pointFile f = pointFile.
Proof.
  intros H. destruct pointFile as [sr t]. unfold AddField_management, with_rows. simpl in *.
  f_equal. induction H as [|r t Hr _ IH]; [done|]. simpl.
  by rewrite IH, (proj1 (settled_add_field f r) Hr).
Qed.

(** What a cursor writes replaces what the added field held. *)
Lemma set_RasElev_add_field v r :
  set_RasElev v (add_field Field_RasElev r) = set_RasElev v r.
Proof. unfold add_field. by destruct (RasElev r). Qed.

Lemma set_Zhat_add_field v r : set_Zhat v (add_field Field_ZHat r) = set_Zhat v r.
Proof. unfold add_field. by destruct (Zhat r). Qed.

Lemma set_TSI_add_field v r : set_TSI v (add_field Field_TSI r) = set_TSI v r.
Proof. unfold add_field. by destruct (TSI r). Qed.

End FieldFacts.

(** ** Elevation sampling *)

Section SamplingFacts.

Context {F : Float} {T : Storage}.

Lemma extract_body_result ws n row :
  (extract_body ws n row).2
  = match GetCellValue ws n (SHAPE_XY row) with
    | inl e => inl e
    | inr v => inr (set_RasElev v row)
    end.
Proof. reflexivity. Qed.

(** The outcome of a read does not depend on the field just added. *)
Lemma extract_body_add_field ws n row :
  (extract_body ws n (add_field Field_RasElev row)).2
  = match GetCellValue ws n (SHAPE_XY row) with
    | inl e => inl e
    | inr v => inr (set_RasElev v row)
    end.
Proof.
  rewrite extract_body_result, add_field_SHAPE_XY.
  destruct (GetCellValue ws n (SHAPE_XY row)); [done|].
  by rewrite set_RasElev_add_field.
Qed.

Lemma extract_elevation_rows pointFile n ws :
  rows (extract_elevation pointFile n ws).1
  = (UpdateCursor (fun _ => true) (extract_body ws n)
       (rows (AddField_management pointFile Field_RasElev))).1.1.
Proof.
  unfold extract_elevation.
  by destruct (UpdateCursor _ _ _) as [[? ?] ?].
Qed.

Lemma extract_elevation_log pointFile n ws :
  (extract_elevation pointFile n ws).2
  = (UpdateCursor (fun _ => true) (extract_body ws n)
       (rows (AddField_management pointFile Field_RasElev))).1.2
    ++ report (UpdateCursor (fun _ => true) (extract_body ws n)
                 (rows (AddField_management pointFile Field_RasElev))).2
    ++ [printArc (ElevationAdded n)].
Proof.
  unfold extract_elevation.
  by destruct (UpdateCursor _ _ _) as [[? ?] ?].
Qed.

Lemma extract_elevation_reference pointFile n ws :
  spatialReference (extract_elevation pointFile n ws).1 = spatialReference pointFile.
Proof.
  unfold extract_elevation.
  by destruct (UpdateCursor _ _ _) as [[? ?] ?].
Qed.

(** A projection of the rows that does not look at the [RasElev] column. *)
Lemma extract_elevation_frame {A} (proj : Row -> A) pointFile n ws :
  (forall e r, proj (mkRow (FID r) (SHAPE_XY r) (Id r) e (Zhat r) (TSI r)) = proj r) ->
  map proj (rows (extract_elevation pointFile n ws).1) = map proj (rows pointFile).
Proof.
  intros Hproj. rewrite extract_elevation_rows.
  rewrite (UpdateCursor_frame proj).
  - rewrite AddField_rows, map_map. apply map_ext. intros r.
    unfold add_field. destruct (RasElev r); [done|apply Hproj].
  - intros r ev r' Hb. unfold extract_body in Hb.
    destruct (GetCellValue ws n (SHAPE_XY r)); [done|].
    injection Hb as _ <-. apply Hproj.
Qed.

Lemma report_samples_only n o : Forall (samples_only n) (report o).
Proof.
  destruct o; simpl; repeat (constructor; [split; [done|by left]|]); constructor.
Qed.

Lemma extract_elevation_samples_only pointFile n ws :
  Forall (samples_only n) (extract_elevation pointFile n ws).2.
Proof.
  rewrite extract_elevation_log.
  apply Forall_app; split; [|apply Forall_app; split].
  - apply UpdateCursor_events. intros r. simpl.
    constructor; [|constructor]. split; [done|by right].
  - apply report_samples_only.
  - constructor; [|constructor]. split; [done|by left].
Qed.

Lemma samples_only_no_projection n log :
  Forall (samples_only n) log -> existsb is_projection log = false.
Proof.
  induction 1 as [|e log [He _] _ IH]; [done|]. simpl. by rewrite He, IH.
Qed.

(** The outcome of one cell read depends on the workspace only through the
    dataset that is read. *)
Lemma extract_elevation_ext pointFile n ws ws' :
  ws !! n = ws' !! n ->
  extract_elevation pointFile n ws = extract_elevation pointFile n ws'.
Proof.
  intros Hn. unfold extract_elevation.
  replace (extract_body ws' n) with (extract_body ws n); [done|].
  unfold extract_body, GetCellValue. by rewrite Hn.
Qed.

(** After the batch every record is settled for [RasElev]: it holds what
    the cursor wrote or what the added field gave it. *)
Lemma extract_elevation_settled pointFile n ws :
  Forall (settled Field_RasElev) (rows (extract_elevation pointFile n ws).1).
Proof.
  rewrite extract_elevation_rows, AddField_rows. apply UpdateCursor_Forall.
  - intros r ev r' _ Hb. unfold extract_body in Hb.
    destruct (GetCellValue ws n _); [done|]. by injection Hb as _ <-.
  - apply Forall_fmap, Forall_forall. intros x _. apply add_field_settled.
Qed.

(** C3, as the code has it.  The cursor loop of [extract_elevation] sits
    inside one [try]: when the cell read fails at the row in position [k],
    after succeeding at every earlier row, the failure is caught and reported
    on the console and the function goes on to its final message; the rows
    before [k] hold their sampled elevation; row [k] and every row after it
    are as [AddField_management] left them, with the elevation they had or,
    when they had none, the value of the new field: the remaining points are
    not sampled. *)
Theorem extract_elevation_stops_at_failure :
  forall (pointFile : FeatureClass) (elevationRaster : string) (ws : Workspace)
         (k : nat) (r : Row) (e : Exn),
    rows pointFile !! k = Some r ->
    GetCellValue ws elevationRaster (SHAPE_XY r) = inl e ->
    (forall j x, (j < k)%nat -> rows pointFile !! j = Some x ->
       exists v, GetCellValue ws elevationRaster (SHAPE_XY x) = inr v) ->
    let result := extract_elevation pointFile elevationRaster ws in
    (forall j x, (j < k)%nat -> rows pointFile !! j = Some x ->
       exists v, GetCellValue ws elevationRaster (SHAPE_XY x) = inr v
                 /\ rows result.1 !! j = Some (set_RasElev v x))
    /\ (forall j, (k <= j)%nat ->
          rows result.1 !! j = rows (AddField_management pointFile Field_RasElev) !! j)
    /\ (exists ev, result.2 = ev ++ [printArc ErrorOccurred; print_exc e;
                                     printArc (ElevationAdded elevationRaster)]).
Proof.
  intros pointFile n ws k r e Hk He Hpre result.
  set (t := rows (AddField_management pointFile Field_RasElev)).
  assert (Ht : forall j x, rows pointFile !! j = Some x ->
            t !! j = Some (add_field Field_RasElev x)).
  { intros j x Hx. unfold t. by rewrite AddField_lookup, Hx. }
  assert (Hpre' : forall j y, (j < k)%nat -> t !! j = Some y ->
            exists y', (extract_body ws n y).2 = inr y').
  { intros j y Hj Hy. unfold t in Hy. rewrite AddField_lookup in Hy.
    destruct (rows pointFile !! j) as [x|] eqn:Hx; [|done]. injection Hy as <-.
    destruct (Hpre j x Hj Hx) as [v Hv].
    exists (set_RasElev v x). by rewrite extract_body_add_field, Hv. }
  assert (He' : (extract_body ws n (add_field Field_RasElev r)).2 = inl e).
  { by rewrite extract_body_add_field, He. }
  destruct (UpdateCursor_raise _ _ _ _ _ (Ht k r Hk) He' Hpre') as [Ho Hrest].
  unfold result. rewrite extract_elevation_rows, extract_elevation_log. fold t.
  split; [|split].
  - intros j x Hj Hx. destruct (Hpre j x Hj Hx) as [v Hv]. exists v.
    split; [done|].
    apply (UpdateCursor_update _ _ _ (add_field Field_RasElev x)); [by apply Ht| |].
    + by rewrite extract_body_add_field, Hv.
    + intros i y Hi Hy. apply (Hpre' i y); [lia|done].
  - done.
  - rewrite Ho. simpl. eauto.
Qed.

End SamplingFacts.

(** ** Reprojection *)

Section ReprojectionFacts.

Context {F : Float} {T : Storage} {G : Reprojection}.

Lemma raster_extract_missing pointFile n ws :
  ws !! n = None -> raster_extract pointFile n ws = inl IOError.
Proof. intros Hn. unfold raster_extract. by rewrite Hn. Qed.

Lemma raster_extract_direct pointFile n ws ras :
  ws !! n = Some ras ->
  String.eqb (name (spatialReference pointFile)) (name (rasterReference ras)) = true ->
  raster_extract pointFile n ws
  = inr ((extract_elevation pointFile n ws).1, ws, (extract_elevation pointFile n ws).2).
Proof.
  intros Hn Heq. unfold raster_extract. rewrite Hn, Heq.
  by destruct (extract_elevation pointFile n ws).
Qed.

Lemma raster_extract_projected pointFile n ws ras :
  ws !! n = Some ras ->
  String.eqb (name (spatialReference pointFile)) (name (rasterReference ras)) = false ->
  let ws1 := <[outRaster := project ras (spatialReference pointFile)]> ws in
  raster_extract pointFile n ws
  = inr ((extract_elevation pointFile outRaster ws1).1, delete outRaster ws,
         ProjectRaster_management n outRaster (spatialReference pointFile)
           :: (extract_elevation pointFile outRaster ws1).2
           ++ [Delete_management outRaster]).
Proof.
  intros Hn Hne ws1. unfold raster_extract. rewrite Hn, Hne. fold ws1.
  destruct (extract_elevation pointFile outRaster ws1). simpl.
  unfold ws1. by rewrite delete_insert_eq.
Qed.

(** C9.  [raster_extract] decides on the names of the two spatial
    references alone: a [ProjectRaster_management] call is made exactly when
    the names differ, and when the names are equal, whatever else the two
    references hold, the batch is the one [extract_elevation] runs on the
    raster it was given, every cell being read from that raster, and the
    workspace is left as it was. *)
Theorem raster_extract_compares_names :
  forall (pointFile : FeatureClass) (elevationRaster : string) (ws : Workspace)
         (ras : Raster),
    ws !! elevationRaster = Some ras ->
    exists pf' ws' log,
      raster_extract pointFile elevationRaster ws = inr (pf', ws', log)
      /\ existsb is_projection log
         = negb (String.eqb (name (spatialReference pointFile))
                            (name (rasterReference ras)))
      /\ (name (spatialReference pointFile) = name (rasterReference ras) ->
            (pf', log) = extract_elevation pointFile elevationRaster ws
            /\ ws' = ws
            /\ Forall (samples_only elevationRaster) log).
Proof.
  intros pointFile n ws ras Hn.
  destruct (String.eqb (name (spatialReference pointFile))
                       (name (rasterReference ras))) eqn:Heq.
  - rewrite (raster_extract_direct _ _ _ _ Hn Heq).
    eexists _, _, _. split; [done|].
    pose proof (extract_elevation_samples_only pointFile n ws) as Hlog.
    split; [by apply (samples_only_no_projection n)|].
    intros _. split; [by destruct (extract_elevation pointFile n ws)|done].
  - rewrite (raster_extract_projected _ _ _ _ Hn Heq).
    eexists _, _, _. split; [done|]. split; [done|].
    intros Hname. apply String.eqb_neq in Heq. done.
Qed.

(** C6, as the code has it.  When the names of the two spatial references
    differ, [raster_extract] projects the raster into the reference of the
    point file once, before the batch; the batch reads every cell from the
    projected raster [outRaster]; the projected raster is deleted after the
    batch and is absent from the workspace at the end.  When the two
    references are equal, the batch runs on the raster as given and the
    workspace is unchanged. *)
Theorem raster_extract_projects_once :
  forall (pointFile : FeatureClass) (elevationRaster : string) (ws : Workspace)
         (ras : Raster),
    ws !! elevationRaster = Some ras ->
    (name (spatialReference pointFile) <> name (rasterReference ras) ->
       let projected := <[outRaster := project ras (spatialReference pointFile)]> ws in
       let batch := extract_elevation pointFile outRaster projected in
       raster_extract pointFile elevationRaster ws
       = inr (batch.1, delete outRaster ws,
              ProjectRaster_management elevationRaster outRaster
                (spatialReference pointFile)
                :: batch.2 ++ [Delete_management outRaster])
       /\ Forall (samples_only outRaster) batch.2
       /\ delete outRaster ws !! outRaster = None)
    /\ (spatialReference pointFile = rasterReference ras ->
          let batch := extract_elevation pointFile elevationRaster ws in
          raster_extract pointFile elevationRaster ws = inr (batch.1, ws, batch.2)
          /\ Forall (samples_only elevationRaster) batch.2).
Proof.
  intros pointFile n ws ras Hn. split.
  - intros Hne projected batch. apply String.eqb_neq in Hne.
    split; [by apply raster_extract_projected|].
    split; [apply extract_elevation_samples_only|apply lookup_delete_eq].
  - intros Heq batch. split; [|apply extract_elevation_samples_only].
    apply (raster_extract_direct _ _ _ ras); [done|].
    rewrite Heq. apply String.eqb_refl.
Qed.

End ReprojectionFacts.

(** ** Aggregation and normalisation *)

Section AggregationFacts.

Context {F : Float} {T : Storage}.

Implicit Types (t cardinals : list Row) (pointElevs : list (option num)).

Lemma write_zhat_eq i z t :
  write_zhat i z t
  = (map (fun row => if FID row =? i then set_Zhat z row else row) t, []).
Proof. unfold write_zhat. by rewrite UpdateCursor_total. Qed.

Lemma zhat_loop_cons_raise pointElevs cardinals i ids t e :
  zhat_of pointElevs cardinals i = inl e ->
  zhat_loop pointElevs cardinals (i :: ids) t = (t, [], Some e).
Proof. intros H. simpl. by rewrite H. Qed.

Lemma zhat_loop_cons_write pointElevs cardinals i ids t z :
  zhat_of pointElevs cardinals i = inr z ->
  zhat_loop pointElevs cardinals (i :: ids) t
  = zhat_loop pointElevs cardinals ids
      (map (fun row => if FID row =? i then set_Zhat z row else row) t).
Proof.
  intros H. simpl. rewrite H, write_zhat_eq.
  by destruct (zhat_loop _ _ ids _) as [[? ?] ?].
Qed.

Lemma zhat_loop_frame {A} (proj : Row -> A) pointElevs cardinals ids t :
  (forall v r, proj (set_Zhat v r) = proj r) ->
  map proj (zhat_loop pointElevs cardinals ids t).1.1 = map proj t.
Proof.
  intros Hproj. revert t. induction ids as [|i ids IH]; intros t; [done|].
  destruct (zhat_of pointElevs cardinals i) as [e|z] eqn:Hz.
  - by rewrite (zhat_loop_cons_raise _ _ _ _ _ e).
  - rewrite (zhat_loop_cons_write _ _ _ _ _ z) by done. rewrite IH.
    rewrite map_map. apply map_ext. intros r. by destruct (FID r =? i).
Qed.

(** A property of the rows that writing a z-hat keeps holds after the
    loop. *)
Lemma zhat_loop_Forall (P : Row -> Prop) pointElevs cardinals ids t :
  (forall v r, P r -> P (set_Zhat v r)) ->
  Forall P t -> Forall P (zhat_loop pointElevs cardinals ids t).1.1.
Proof.
  intros HP. revert t. induction ids as [|i ids IH]; intros t Ht; [done|].
  destruct (zhat_of pointElevs cardinals i) as [e|z] eqn:Hz.
  - by rewrite (zhat_loop_cons_raise _ _ _ _ _ e).
  - rewrite (zhat_loop_cons_write _ _ _ _ _ z) by done. apply IH.
    apply Forall_fmap. eapply Forall_impl; [exact Ht|]. intros r Hr. simpl.
    destruct (FID r =? i); [by apply HP|done].
Qed.

(** When no identifier makes the mean raise, the loop ends normally: a row
    whose [FID] is among the identifiers holds the mean of that identifier,
    every other row is untouched. *)
Lemma zhat_loop_total pointElevs cardinals ids t :
  (forall i, i ∈ ids -> exists z, zhat_of pointElevs cardinals i = inr z) ->
  (zhat_loop pointElevs cardinals ids t).2 = None
  /\ forall k p, t !! k = Some p ->
       (FID p ∈ ids ->
          exists z, zhat_of pointElevs cardinals (FID p) = inr z
            /\ (zhat_loop pointElevs cardinals ids t).1.1 !! k = Some (set_Zhat z p))
       /\ (FID p ∉ ids -> (zhat_loop pointElevs cardinals ids t).1.1 !! k = Some p).
Proof.
  revert t. induction ids as [|i ids IH]; intros t Hids.
  - split; [done|]. intros k p Hk. split; [|done].
    intros Hin. by apply elem_of_nil in Hin.
  - destruct (Hids i) as [z Hz]; [by left|].
    rewrite (zhat_loop_cons_write _ _ _ _ _ z) by done.
    set (t1 := map (fun row => if FID row =? i then set_Zhat z row else row) t).
    destruct (IH t1) as [Ho Hrows].
    { intros j Hj. apply Hids. by right. }
    split; [done|]. intros k p Hk.
    assert (Hk1 : t1 !! k = Some (if FID p =? i then set_Zhat z p else p)).
    { unfold t1. by rewrite list_lookup_fmap, Hk. }
    destruct (Hrows k _ Hk1) as [Hin Hout].
    assert (Hfid : FID (if FID p =? i then set_Zhat z p else p) = FID p).
    { by destruct (FID p =? i). }
    rewrite Hfid in Hin, Hout.
    destruct (decide (FID p ∈ ids)) as [Hmem|Hmem].
    + split; [|intros Hn; exfalso; apply Hn; by right].
      intros _. destruct (Hin Hmem) as (z' & Hz' & Hres). exists z'.
      split; [done|]. rewrite Hres. by destruct (FID p =? i).
    + split.
      * intros Hi. apply elem_of_cons in Hi as [Hi|Hi]; [|done].
        exists z. rewrite Hi. split; [done|]. rewrite (Hout Hmem).
        by rewrite <- Hi, Z.eqb_refl.
      * intros Hn. rewrite (Hout Hmem).
        destruct (FID p =? i) eqn:E; [|done].
        apply Z.eqb_eq in E. exfalso. apply Hn. rewrite E. by left.
Qed.

(** When the mean of an identifier of the list raises, the loop raises, at
    that identifier or before it, and the rows with that [FID] are never
    written. *)
Lemma zhat_loop_raises pointElevs cardinals ids t i e :
  i ∈ ids ->
  zhat_of pointElevs cardinals i = inl e ->
  (exists e', (zhat_loop pointElevs cardinals ids t).2 = Some e')
  /\ forall k p, t !! k = Some p -> FID p = i ->
       (zhat_loop pointElevs cardinals ids t).1.1 !! k = Some p.
Proof.
  intros Hi He. revert t. induction ids as [|j ids IH]; intros t.
  - by apply elem_of_nil in Hi.
  - destruct (zhat_of pointElevs cardinals j) as [e'|z] eqn:Hz.
    + rewrite (zhat_loop_cons_raise _ _ _ _ _ e') by done. simpl. eauto.
    + rewrite (zhat_loop_cons_write _ _ _ _ _ z) by done.
      assert (Hne : j <> i) by (intros ->; congruence).
      apply elem_of_cons in Hi as [Hi|Hi]; [done|].
      destruct (IH Hi (map (fun row => if FID row =? j then set_Zhat z row else row) t))
        as [Ho Hrows].
      split; [done|]. intros k p Hk Hfid. apply Hrows; [|done].
      rewrite list_lookup_fmap, Hk. simpl.
      destruct (FID p =? j) eqn:E; [|done].
      apply Z.eqb_eq in E. congruence.
Qed.

Lemma comprehension_all {A B} (f : A -> Exn + B) (g : A -> B) (l : list A) :
  Forall (fun a => f a = inr (g a)) l -> comprehension f l = inr (map g l).
Proof.
  induction 1 as [|a l Ha _ IH]; [done|]. simpl. by rewrite Ha, IH.
Qed.

Lemma py_index_position {A} (l : list A) (k : nat) (a : A) :
  l !! k = Some a -> py_index l (Z.of_nat k) = inr a.
Proof.
  intros Hk. pose proof (lookup_lt_Some _ _ _ Hk) as Hlt.
  unfold py_index.
  replace (Z.of_nat k <? 0) with false by (symmetry; apply Z.ltb_ge; lia).
  replace (0 <=? Z.of_nat k) with true by (symmetry; apply Z.leb_le; lia).
  replace (Z.of_nat k <? Z.of_nat (length l)) with true
    by (symmetry; apply Z.ltb_lt; lia).
  simpl. by rewrite Nat2Z.id, Hk.
Qed.

(** A projection of the rows that does not look at the [Zhat] column. *)
Lemma calculate_zhat_frame {A} {S : SetOrder} (proj : Row -> A) pointFile cardinalFile :
  (forall z r, proj (mkRow (FID r) (SHAPE_XY r) (Id r) (RasElev r) z (TSI r)) = proj r) ->
  map proj (rows (calculate_zhat pointFile cardinalFile).1.1) = map proj (rows pointFile).
Proof.
  intros Hproj. unfold calculate_zhat.
  pose proof (zhat_loop_frame proj (map RasElev (rows pointFile)) (rows cardinalFile)
                (list_set (map Id (rows cardinalFile)))
                (rows (AddField_management pointFile Field_ZHat))
                (fun v r => Hproj (Some v) r)) as H.
  destruct (zhat_loop _ _ _ _) as [[? ?] ?]. simpl in *. rewrite H.
  rewrite map_map. apply map_ext. intros r.
  unfold add_field. destruct (Zhat r); [done|apply Hproj].
Qed.

Lemma calculate_zhat_rows {S : SetOrder} pointFile cardinalFile :
  rows (calculate_zhat pointFile cardinalFile).1.1
  = (zhat_loop (map RasElev (rows pointFile)) (rows cardinalFile)
       (list_set (map Id (rows cardinalFile)))
       (rows (AddField_management pointFile Field_ZHat))).1.1.
Proof. unfold calculate_zhat. by destruct (zhat_loop _ _ _ _) as [[? ?] ?]. Qed.

Lemma calculate_zhat_uncaught {S : SetOrder} pointFile cardinalFile :
  (calculate_zhat pointFile cardinalFile).2
  = (zhat_loop (map RasElev (rows pointFile)) (rows cardinalFile)
       (list_set (map Id (rows cardinalFile)))
       (rows (AddField_management pointFile Field_ZHat))).2.
Proof. unfold calculate_zhat. by destruct (zhat_loop _ _ _ _) as [[? ?] ?]. Qed.

Lemma calculate_zhat_settled {S : SetOrder} pointFile cardinalFile :
  Forall (settled Field_ZHat) (rows (calculate_zhat pointFile cardinalFile).1.1).
Proof.
  rewrite calculate_zhat_rows, AddField_rows. apply zhat_loop_Forall; [done|].
  apply Forall_fmap, Forall_forall. intros x _. apply add_field_settled.
Qed.

Lemma calculate_zhat_reference {S : SetOrder} pointFile cardinalFile :
  spatialReference (calculate_zhat pointFile cardinalFile).1.1 = spatialReference pointFile.
Proof. unfold calculate_zhat. by destruct (zhat_loop _ _ _ _) as [[? ?] ?]. Qed.

Lemma tsi_body_result plotRadius row :
  (tsi_body plotRadius row).2
  = match py_div (Zhat row) plotRadius with
    | inl e => inl e
    | inr v => inr (set_TSI v row)
    end.
Proof. reflexivity. Qed.

Lemma calculate_tsi_rows pointFile plotRadius :
  rows (calculate_tsi pointFile plotRadius).1
  = (UpdateCursor (fun _ => true) (tsi_body plotRadius)
       (rows (AddField_management pointFile Field_TSI))).1.1.
Proof.
  unfold calculate_tsi.
  by destruct (UpdateCursor _ _ _) as [[? ?] ?].
Qed.

Lemma calculate_tsi_log pointFile plotRadius :
  (calculate_tsi pointFile plotRadius).2
  = (UpdateCursor (fun _ => true) (tsi_body plotRadius)
       (rows (AddField_management pointFile Field_TSI))).1.2
    ++ report (UpdateCursor (fun _ => true) (tsi_body plotRadius)
                 (rows (AddField_management pointFile Field_TSI))).2
    ++ [printArc TSICalculated].
Proof.
  unfold calculate_tsi.
  by destruct (UpdateCursor _ _ _) as [[? ?] ?].
Qed.

Lemma calculate_tsi_reference pointFile plotRadius :
  spatialReference (calculate_tsi pointFile plotRadius).1 = spatialReference pointFile.
Proof.
  unfold calculate_tsi.
  by destruct (UpdateCursor _ _ _) as [[? ?] ?].
Qed.

Lemma calculate_tsi_settled pointFile plotRadius :
  Forall (settled Field_TSI) (rows (calculate_tsi pointFile plotRadius).1).
Proof.
  rewrite calculate_tsi_rows, AddField_rows. apply UpdateCursor_Forall.
  - intros r ev r' _ Hb. unfold tsi_body in Hb.
    destruct (py_div (Zhat r) plotRadius); [done|]. by injection Hb as _ <-.
  - apply Forall_fmap, Forall_forall. intros x _. apply add_field_settled.
Qed.

(** A projection of the rows that does not look at the [TSI] column. *)
Lemma calculate_tsi_frame {A} (proj : Row -> A) pointFile plotRadius :
  (forall v r, proj (mkRow (FID r) (SHAPE_XY r) (Id r) (RasElev r) (Zhat r) v) = proj r) ->
  map proj (rows (calculate_tsi pointFile plotRadius).1) = map proj (rows pointFile).
Proof.
  intros Hproj. rewrite calculate_tsi_rows.
  rewrite (UpdateCursor_frame proj).
  - rewrite AddField_rows, map_map. apply map_ext. intros r.
    unfold add_field. destruct (TSI r); [done|apply Hproj].
  - intros r ev r' Hb. unfold tsi_body in Hb.
    destruct (py_div (Zhat r) plotRadius); [done|].
    injection Hb as _ <-. apply Hproj.
Qed.

End AggregationFacts.

(** ** What each stage leaves alone *)

Section Frame.

Context {F : Float} {T : Storage} {S : SetOrder} {G : Reprojection}.

Lemma raster_extract_frame {A} (proj : Row -> A) pointFile n ws pf' ws' log :
  (forall e r, proj (mkRow (FID r) (SHAPE_XY r) (Id r) e (Zhat r) (TSI r)) = proj r) ->
  raster_extract pointFile n ws = inr (pf', ws', log) ->
  same_beside proj pf' pointFile.
Proof.
  intros Hproj Hre. unfold raster_extract in Hre.
  destruct (ws !! n) as [ras|]; [|done].
  destruct (String.eqb _ _).
  - pose proof (extract_elevation_frame proj pointFile n ws Hproj) as Hf.
    pose proof (extract_elevation_reference pointFile n ws) as Hr.
    destruct (extract_elevation pointFile n ws) as [pf ev].
    injection Hre as <- _ _. by split.
  - set (ws1 := <[outRaster := project ras (spatialReference pointFile)]> ws) in *.
    pose proof (extract_elevation_frame proj pointFile outRaster ws1 Hproj) as Hf.
    pose proof (extract_elevation_reference pointFile outRaster ws1) as Hr.
    destruct (extract_elevation pointFile outRaster ws1) as [pf ev].
    injection Hre as <- _ _. by split.
Qed.

(** C10.  Every stage keeps the number and order of the rows, the spatial
    reference, and in every row the coordinates and the identifiers [FID] and
    [Id]; [extract_elevation] and [raster_extract] change at most the
    [RasElev] column, [calculate_zhat] at most the [Zhat] column of the point
    file (it takes the cardinal file as an argument it only reads, and this
    holds also when it raises), [calculate_tsi] at most the [TSI] column. *)
Theorem stages_write_one_column :
  forall (pointFile cardinalFile : FeatureClass) (elevationRaster : string)
         (ws : Workspace) (plotRadius : num),
    same_beside beside_RasElev
      (extract_elevation pointFile elevationRaster ws).1 pointFile
    /\ match raster_extract pointFile elevationRaster ws with
       | inl _ => True
       | inr (pf', _, _) => same_beside beside_RasElev pf' pointFile
       end
    /\ same_beside beside_Zhat (calculate_zhat pointFile cardinalFile).1.1 pointFile
    /\ same_beside beside_TSI (calculate_tsi pointFile plotRadius).1 pointFile.
Proof.
  intros pointFile cardinalFile n ws plotRadius. repeat split.
  - apply extract_elevation_reference.
  - by apply extract_elevation_frame.
  - destruct (raster_extract pointFile n ws) as [e|[[pf' ws'] log]] eqn:Hre; [done|].
    by apply (raster_extract_frame beside_RasElev _ _ _ _ _ _ ltac:(done) Hre).
  - apply calculate_zhat_reference.
  - by apply calculate_zhat_frame.
  - apply calculate_tsi_reference.
  - by apply calculate_tsi_frame.
Qed.

End Frame.

(** ** z-hat *)

Section ZhatFacts.

Context {F : Float} {T : Storage} {S : SetOrder}.

Lemma SearchCursor_elem w (t : list Row) r :
  r ∈ SearchCursor w t <-> r ∈ t /\ w r = true.
Proof. unfold SearchCursor. by rewrite list_elem_of_filter, (comm and). Qed.

Lemma SearchCursor_Id_nonempty (cardinals : list Row) i :
  i ∈ map Id cardinals <-> SearchCursor (fun c => Id c =? i) cardinals <> [].
Proof.
  split.
  - intros Hi Hnil. apply list_elem_of_fmap in Hi as (c & -> & Hc).
    assert (Hin : c ∈ SearchCursor (fun c' => Id c' =? Id c) cardinals).
    { apply SearchCursor_elem. split; [done|apply Z.eqb_refl]. }
    rewrite Hnil in Hin. by apply elem_of_nil in Hin.
  - intros Hne.
    destruct (SearchCursor (fun c => Id c =? i) cardinals) as [|c l] eqn:E; [done|].
    assert (Hin : c ∈ SearchCursor (fun c => Id c =? i) cardinals)
      by (rewrite E; by left).
    apply SearchCursor_elem in Hin as [Hc Hid]. apply Z.eqb_eq in Hid.
    apply list_elem_of_fmap. by exists c.
Qed.

Lemma omap_all_defined (l : list Row) :
  Forall (fun c => is_Some (RasElev c)) l ->
  length (omap RasElev l) = length l.
Proof.
  induction 1 as [|c l [v Hv] _ IH]; [done|].
  cbn [omap list_omap]. rewrite Hv. simpl. f_equal. exact IH.
Qed.

(** With every elevation in place, the mean computed for the plot in
    position [k], whose [FID] is [k], is the mean of the deviations of its own
    cardinal records from its own elevation. *)
Lemma zhat_of_valid (plots cardinals : list Row) (k : nat) (p : Row) (pe : num) :
  plots !! k = Some p ->
  FID p = Z.of_nat k ->
  RasElev p = Some pe ->
  Forall (fun c => is_Some (RasElev c)) cardinals ->
  SearchCursor (fun c => Id c =? FID p) cardinals <> [] ->
  let devs := map (fun ce => fsub ce pe)
                (omap RasElev (SearchCursor (fun c => Id c =? FID p) cardinals)) in
  zhat_of (map RasElev plots) cardinals (FID p)
  = inr (fdiv (py_sum devs) (of_int (Z.of_nat (length devs)))).
Proof.
  intros Hk Hfid Hpe Hcards Hne devs. unfold zhat_of.
  set (own := SearchCursor (fun c => Id c =? FID p) cardinals) in *.
  assert (Hown : Forall (fun c => is_Some (RasElev c)) own).
  { apply Forall_forall. intros c Hc. apply SearchCursor_elem in Hc as [Hc _].
    by apply (proj1 (Forall_forall _ _) Hcards). }
  set (g := fun c : Row => match RasElev c with Some ce => fsub ce pe | None => pe end).
  assert (Hdev : Forall (fun c => deviation (map RasElev plots) (FID p) c = inr (g c)) own).
  { apply Forall_forall. intros c Hc.
    destruct (proj1 (Forall_forall _ _) Hown c Hc) as [ce Hce].
    unfold deviation. rewrite Hfid.
    rewrite (py_index_position _ k (RasElev p)) by (by rewrite list_lookup_fmap, Hk).
    unfold g. by rewrite Hpe, Hce. }
  rewrite (comprehension_all _ g own Hdev).
  assert (Hmap : map g own = devs).
  { unfold devs. clear Hdev Hne. induction Hown as [|c l [ce Hce] _ IH]; [done|].
    simpl. unfold g at 1. rewrite Hce. simpl. by rewrite IH. }
  rewrite <- Hmap. unfold mean.
  destruct (map g own) as [|d l] eqn:E; [|done].
  exfalso. apply Hne. by apply fmap_nil_inv in E.
Qed.

(** Where the positional lookup of [calculate_zhat] does no harm.  When
    every plot and every cardinal record has an elevation, the [FID] of each
    plot is its position in the point file (as a shapefile read whole numbers
    its records) and every cardinal's [Id] is the [FID] of a plot, the
    function ends without raising, and for every plot: if no cardinal record
    carries its identifier the row is as [AddField_management] left it;
    otherwise its [Zhat] is the sum of (cardinal elevation - the plot's own
    elevation) over the cardinal records selected by [Id = FID], divided by
    the number of those records, whatever that number is: the value the
    specification asks for. *)
Lemma calculate_zhat_mean :
  forall (pointFile cardinalFile : FeatureClass),
    Forall (fun c => is_Some (RasElev c)) (rows cardinalFile) ->
    Forall (fun p => is_Some (RasElev p)) (rows pointFile) ->
    (forall k p, rows pointFile !! k = Some p -> FID p = Z.of_nat k) ->
    Forall (fun c => exists p, p ∈ rows pointFile /\ Id c = FID p) (rows cardinalFile) ->
    let result := calculate_zhat pointFile cardinalFile in
    result.2 = None
    /\ forall k p, rows pointFile !! k = Some p ->
         let own := SearchCursor (fun c => Id c =? FID p) (rows cardinalFile) in
         (own = [] -> rows result.1.1 !! k = Some (add_field Field_ZHat p))
         /\ (own <> [] ->
               exists pe, RasElev p = Some pe
                 /\ let devs := map (fun ce => fsub ce pe) (omap RasElev own) in
                    let zhat := fdiv (py_sum devs) (of_int (Z.of_nat (length devs))) in
                    length devs = length own
                    /\ rows result.1.1 !! k = Some (set_Zhat zhat p)
                    /\ computeZHat_spec (rows cardinalFile) p = Some zhat).
Proof.
  intros pointFile cardinalFile Hcards Hplots Hpos Hown result.
  set (pointElevs := map RasElev (rows pointFile)).
  set (ids := list_set (map Id (rows cardinalFile))).
  assert (Hids : forall i, i ∈ ids ->
            exists z, zhat_of pointElevs (rows cardinalFile) i = inr z).
  { intros i Hi. unfold ids in Hi. apply (proj1 (list_set_elem _ _)) in Hi.
    pose proof (proj1 (SearchCursor_Id_nonempty _ _) Hi) as Hne.
    apply list_elem_of_fmap in Hi as (c & -> & Hc).
    destruct (proj1 (Forall_forall _ _) Hown c Hc) as (p & Hp & Hcp).
    apply list_elem_of_lookup in Hp as [k Hk].
    destruct (proj1 (Forall_forall _ _) Hplots p) as [pe Hpe].
    { apply list_elem_of_lookup. eauto. }
    rewrite Hcp in *. eexists.
    by apply (zhat_of_valid _ _ k p pe); [|apply Hpos| | |]. }
  destruct (zhat_loop_total pointElevs (rows cardinalFile) ids
              (rows (AddField_management pointFile Field_ZHat)) Hids)
    as [Ho Hrows].
  unfold result. rewrite calculate_zhat_uncaught, calculate_zhat_rows.
  split; [done|]. cbv zeta. intros k p Hk.
  set (own := SearchCursor (fun c => Id c =? FID p) (rows cardinalFile)).
  assert (Hk' : rows (AddField_management pointFile Field_ZHat) !! k
                = Some (add_field Field_ZHat p))
    by (by rewrite AddField_lookup, Hk).
  destruct (Hrows k _ Hk') as [Hin Hout].
  rewrite add_field_FID in Hin, Hout. split.
  - intros Hnil. apply Hout. intros Hmem. unfold ids in Hmem.
    apply (proj1 (list_set_elem _ _)) in Hmem.
    apply (proj1 (SearchCursor_Id_nonempty _ _)) in Hmem. done.
  - intros Hne.
    destruct (proj1 (Forall_forall _ _) Hplots p) as [pe Hpe].
    { apply list_elem_of_lookup. eauto. }
    exists pe. split; [done|].
    set (devs := map (fun ce => fsub ce pe) (omap RasElev own)).
    set (zhat := fdiv (py_sum devs) (of_int (Z.of_nat (length devs)))).
    assert (Hlen : length (omap RasElev own) = length own).
    { apply omap_all_defined, Forall_forall. intros c Hc.
      apply SearchCursor_elem in Hc as [Hc _].
      by apply (proj1 (Forall_forall _ _) Hcards). }
    split; [unfold devs; by rewrite length_map|].
    destruct Hin as (z & Hz & Hres).
    { apply (proj2 (list_set_elem _ _)).
      by apply (proj2 (SearchCursor_Id_nonempty _ _)). }
    fold pointElevs in Hz.
    unfold pointElevs in Hz.
    rewrite (zhat_of_valid _ _ k p pe Hk (Hpos k p Hk) Hpe Hcards Hne) in Hz.
    injection Hz as <-. rewrite set_Zhat_add_field in Hres. split; [done|].
    unfold computeZHat_spec. rewrite Hpe. fold own. unfold zhat, devs.
    clearbody own. clear Hres zhat devs.
    destruct (omap RasElev own) as [|v l] eqn:E.
    + destruct own; [done|]. simpl in Hlen. lia.
    + by rewrite !length_map.
Qed.

End ZhatFacts.

(** ** TSI *)

Section TsiFacts.

Context {F : Float} {T : Storage}.

Lemma tsi_body_defined plotRadius (q : Row) (z : num) :
  is_zero plotRadius = false -> Zhat q = Some z ->
  (tsi_body plotRadius q).2 = inr (set_TSI (fdiv z plotRadius) q).
Proof.
  intros Hr Hz. rewrite tsi_body_result. unfold py_div. by rewrite Hz, Hr.
Qed.

(** The division looks at the z-hat of the record only. *)
Lemma tsi_body_add_field plotRadius (q : Row) :
  (tsi_body plotRadius (add_field Field_TSI q)).2
  = match py_div (Zhat q) plotRadius with
    | inl e => inl e
    | inr v => inr (set_TSI v q)
    end.
Proof.
  rewrite tsi_body_result.
  pose proof (add_field_other Field_TSI Field_ZHat q ltac:(done)) as Hz.
  simpl in Hz. rewrite Hz.
  destruct (py_div (Zhat q) plotRadius); [done|]. by rewrite set_TSI_add_field.
Qed.

Lemma tsi_body_exception plotRadius (q : Row) e :
  is_zero plotRadius = false -> (tsi_body plotRadius q).2 = inl e -> e = TypeError.
Proof.
  intros Hr. rewrite tsi_body_result. unfold py_div.
  destruct (Zhat q); [by rewrite Hr|]. by intros [= <-].
Qed.

(** The loop of [calculate_tsi] prints nothing by itself. *)
Lemma calculate_tsi_console pointFile plotRadius :
  (calculate_tsi pointFile plotRadius).2
  = report (UpdateCursor (fun _ => true) (tsi_body plotRadius)
              (rows (AddField_management pointFile Field_TSI))).2
    ++ [printArc TSICalculated].
Proof. rewrite calculate_tsi_log. by rewrite UpdateCursor_silent. Qed.

(** C5, as the code has it.  [calculate_tsi] *REQUIRES* z-hat values: its
    cursor loop sits inside one [try].  With a radius that is not zero, a plot
    with a z-hat gets [TSI = Zhat / plotRadius] when every plot before it in
    the point file has a z-hat too.  At a plot without z-hat the loop stops:
    that plot and every plot after it, with or without z-hat, are as
    [AddField_management] left them, with the [TSI] they had or, when they
    had none, the value of the new field; the error is reported on the
    console and the function goes on to its final message instead of
    raising. *)
Theorem calculate_tsi_until_missing_zhat :
  forall (pointFile : FeatureClass) (plotRadius : num),
    let result := calculate_tsi pointFile plotRadius in
    (forall k p z,
        is_zero plotRadius = false ->
        rows pointFile !! k = Some p ->
        Zhat p = Some z ->
        (forall j q, (j < k)%nat -> rows pointFile !! j = Some q -> is_Some (Zhat q)) ->
        rows result.1 !! k = Some (set_TSI (fdiv z plotRadius) p))
    /\ (forall k p,
          rows pointFile !! k = Some p ->
          Zhat p = None ->
          (forall j, (k <= j)%nat ->
             rows result.1 !! j = rows (AddField_management pointFile Field_TSI) !! j)
          /\ exists e, result.2 = [printArc ErrorOccurred; print_exc e;
                                   printArc TSICalculated]
                       /\ (is_zero plotRadius = false -> e = TypeError)).
Proof.
  intros pointFile plotRadius result. unfold result.
  rewrite calculate_tsi_rows, calculate_tsi_console.
  set (t := rows (AddField_management pointFile Field_TSI)).
  assert (Ht : forall j x, rows pointFile !! j = Some x ->
            t !! j = Some (add_field Field_TSI x)).
  { intros j x Hx. unfold t. by rewrite AddField_lookup, Hx. }
  split.
  - intros k p z Hr Hk Hz Hpre.
    apply (UpdateCursor_update _ _ _ (add_field Field_TSI p)); [by apply Ht| |].
    + rewrite tsi_body_add_field. unfold py_div. by rewrite Hz, Hr.
    + intros j y Hj Hy. unfold t in Hy. rewrite AddField_lookup in Hy.
      destruct (rows pointFile !! j) as [q|] eqn:Hq; [|done]. injection Hy as <-.
      destruct (Hpre j q Hj Hq) as [zq Hzq].
      eexists. rewrite tsi_body_add_field. unfold py_div. by rewrite Hzq, Hr.
  - intros k p Hk Hz.
    assert (Hraise : (tsi_body plotRadius (add_field Field_TSI p)).2 = inl TypeError).
    { rewrite tsi_body_add_field. unfold py_div. by rewrite Hz. }
    split.
    + by apply (UpdateCursor_kept_from _ _ k _ TypeError (Ht k p Hk) Hraise).
    + destruct (UpdateCursor_kept (tsi_body plotRadius) _ k _ TypeError (Ht k p Hk) Hraise)
        as [_ [e He]].
      exists e. rewrite He. split; [done|]. intros Hr.
      apply UpdateCursor_raised_by in He as (r & _ & He).
      by apply (tsi_body_exception plotRadius r).
Qed.

End TsiFacts.

(** ** The whole run *)

Section RunFacts.

Context {F : Float} {T : Storage} {M : Math F} {S : SetOrder} {G : Reprojection}.

Lemma main_unfold inputPlots inputRadius inputRaster ws :
  main inputPlots inputRadius inputRaster ws
  = let outputCardinals := (create_cardinals inputPlots inputRadius).1 in
    let ev0 := (create_cardinals inputPlots inputRadius).2 in
    match raster_extract inputPlots inputRaster ws with
    | inl e => mkRun inputPlots outputCardinals ws ev0 (Some e)
    | inr (plots1, ws1, ev1) =>
        match raster_extract outputCardinals inputRaster ws1 with
        | inl e => mkRun plots1 outputCardinals ws1 (ev0 ++ ev1) (Some e)
        | inr (cards1, ws2, ev2) =>
            match (calculate_zhat plots1 cards1).2 with
            | Some e =>
                mkRun (calculate_zhat plots1 cards1).1.1 cards1 ws2
                  (ev0 ++ ev1 ++ ev2 ++ (calculate_zhat plots1 cards1).1.2) (Some e)
            | None =>
                mkRun (calculate_tsi (calculate_zhat plots1 cards1).1.1 inputRadius).1
                  cards1 ws2
                  (ev0 ++ ev1 ++ ev2 ++ (calculate_zhat plots1 cards1).1.2
                     ++ (calculate_tsi (calculate_zhat plots1 cards1).1.1 inputRadius).2)
                  None
            end
        end
    end.
Proof.
  unfold main. simpl.
  destruct (raster_extract inputPlots inputRaster ws) as [e|[[plots1 ws1] ev1]]; [done|].
  destruct (raster_extract _ inputRaster ws1) as [e|[[cards1 ws2] ev2]]; [done|].
  destruct (calculate_zhat plots1 cards1) as [[plots2 ev3] [e|]]; [done|].
  simpl. by destruct (calculate_tsi plots2 inputRadius).
Qed.

End RunFacts.

(** ** Running twice *)

Section Rerun.

Context {F : Float} {T : Storage}.

Lemma set_RasElev_id (v : num) (r : Row) : RasElev r = Some v -> set_RasElev v r = r.
Proof. destruct r. simpl. by intros ->. Qed.

Lemma set_Zhat_id (v : num) (r : Row) : Zhat r = Some v -> set_Zhat v r = r.
Proof. destruct r. simpl. by intros ->. Qed.

(** Sampling again a table that already holds what sampling wrote changes
    nothing, and stops where it stopped. *)
Lemma extract_again ws n (t q : list Row) :
  map (fun r => (SHAPE_XY r, RasElev r)) q
  = map (fun r => (SHAPE_XY r, RasElev r))
        (UpdateCursor (fun _ => true) (extract_body ws n) t).1.1 ->
  (UpdateCursor (fun _ => true) (extract_body ws n) q).1.1 = q
  /\ (UpdateCursor (fun _ => true) (extract_body ws n) q).2
     = (UpdateCursor (fun _ => true) (extract_body ws n) t).2.
Proof.
  revert q. induction t as [|r t IH]; intros q Hq.
  - by destruct q.
  - destruct (UpdateCursor_cons_cases (fun _ => true) (extract_body ws n) r t)
      as [(ev & e & _ & Hb & Hu)|[(ev & r' & _ & Hb & Hu)|[? _]]]; [| |done].
    + rewrite Hu in Hq |- *. simpl in Hq |- *.
      destruct q as [|a q]; [done|]. injection Hq as Hxy Hel Hq.
      assert (Ha : extract_body ws n a
                   = ([GetCellValue_management n (SHAPE_XY a)], inl e)).
      { unfold extract_body in *. rewrite Hxy.
        by destruct (GetCellValue ws n (SHAPE_XY r)); [injection Hb as _ <-|]. }
      by rewrite (UpdateCursor_cons_raise _ _ _ _ _ e Logic.eq_refl Ha).
    + rewrite Hu in Hq |- *. simpl in Hq |- *.
      destruct q as [|a q]; [done|]. injection Hq as Hxy Hel Hq.
      unfold extract_body in Hb.
      destruct (GetCellValue ws n (SHAPE_XY r)) as [e|v] eqn:Hv; [done|].
      injection Hb as _ <-. simpl in Hxy, Hel.
      assert (Ha : extract_body ws n a
                   = ([GetCellValue_management n (SHAPE_XY a)], inr a)).
      { unfold extract_body. rewrite Hxy, Hv. by rewrite set_RasElev_id. }
      rewrite (UpdateCursor_cons_update _ _ _ _ _ a Logic.eq_refl Ha). simpl.
      by destruct (IH q Hq) as [-> ->].
Qed.

Lemma UpdateCursor_ext_result w body body' (t : list Row) :
  (forall r, (body r).2 = (body' r).2) ->
  (UpdateCursor w body t).1.1 = (UpdateCursor w body' t).1.1
  /\ (UpdateCursor w body t).2 = (UpdateCursor w body' t).2.
Proof.
  intros Hb. induction t as [|r t [IH1 IH2]]; [done|].
  specialize (Hb r).
  destruct (UpdateCursor_cons_cases w body r t)
    as [(ev & e & Hw & Hr & ->)|[(ev & r' & Hw & Hr & ->)|[Hw ->]]];
    rewrite ?Hr in Hb; simpl in Hb.
  - destruct (body' r) as [ev' s] eqn:Hr'. simpl in Hb. subst s.
    by rewrite (UpdateCursor_cons_raise _ _ _ _ ev' e).
  - destruct (body' r) as [ev' s] eqn:Hr'. simpl in Hb. subst s.
    rewrite (UpdateCursor_cons_update _ _ _ _ ev' r') by done. simpl.
    by rewrite IH1, IH2.
  - rewrite UpdateCursor_cons_skip by done. simpl. by rewrite IH1, IH2.
Qed.

(** Which rows a batch writes depends on the workspace only through the
    raster that is read, not on its name. *)
Lemma extract_elevation_raster pointFile n ws n' ws' :
  ws !! n = ws' !! n' ->
  (extract_elevation pointFile n ws).1 = (extract_elevation pointFile n' ws').1.
Proof.
  intros Hn.
  destruct (UpdateCursor_ext_result (fun _ => true) (extract_body ws n)
              (extract_body ws' n') (rows (AddField_management pointFile Field_RasElev)))
    as [Hrows _].
  { intros r. unfold extract_body, GetCellValue. simpl. by rewrite Hn. }
  unfold extract_elevation.
  destruct (UpdateCursor _ (extract_body ws n) _) as [[? ?] ?].
  destruct (UpdateCursor _ (extract_body ws' n') _) as [[? ?] ?].
  simpl in *. by subst.
Qed.

(** A point file whose column of a field is that of a file in which the
    field is settled needs no adding of the field. *)
Lemma AddField_again {A} (f : Field) (proj : Row -> A) (get : A -> option num)
    (q pf : FeatureClass) :
  (forall r, get (proj r) = field_value f r) ->
  map proj (rows q) = map proj (rows pf) ->
  Forall (settled f) (rows pf) ->
  AddField_management q f = q.
Proof.
  intros Hget Hq Hpf. apply AddField_settled.
  assert (H : Forall (fun x => get x = None -> added_value = None) (map proj (rows q))).
  { rewrite Hq. apply Forall_fmap. eapply Forall_impl; [exact Hpf|].
    intros r Hr. simpl. by rewrite Hget. }
  apply Forall_fmap in H. eapply Forall_impl; [exact H|].
  intros r Hr. unfold settled. by rewrite <- Hget.
Qed.

Lemma extract_elevation_again pointFile n ws (q : FeatureClass) :
  map (fun r => (SHAPE_XY r, RasElev r)) (rows q)
  = map (fun r => (SHAPE_XY r, RasElev r)) (rows (extract_elevation pointFile n ws).1) ->
  (extract_elevation q n ws).1 = q.
Proof.
  intros Hq.
  assert (Hadd : AddField_management q Field_RasElev = q).
  { apply (AddField_again Field_RasElev (fun r => (SHAPE_XY r, RasElev r)) snd q _
             ltac:(done) Hq).
    apply extract_elevation_settled. }
  rewrite extract_elevation_rows in Hq.
  destruct (extract_again ws n _ (rows q) Hq) as [Hrows _].
  pose proof (extract_elevation_rows q n ws) as Hr.
  pose proof (extract_elevation_reference q n ws) as Hs.
  rewrite Hadd, Hrows in Hr.
  destruct (extract_elevation q n ws) as [[sr t] ev]. destruct q as [sr' t'].
  simpl in *. congruence.
Qed.

(** Aggregating again over a table that already holds what the aggregation
    wrote changes nothing, and ends as it ended. *)
Lemma zhat_loop_keeps pointElevs cardinals ids (t : list Row) i z :
  zhat_of pointElevs cardinals i = inr z ->
  Forall (fun r => FID r = i -> Zhat r = Some z) t ->
  Forall (fun r => FID r = i -> Zhat r = Some z)
    (zhat_loop pointElevs cardinals ids t).1.1.
Proof.
  intros Hz. revert t. induction ids as [|j ids IH]; intros t Ht; [done|].
  destruct (zhat_of pointElevs cardinals j) as [e|zj] eqn:Hj.
  - by rewrite (zhat_loop_cons_raise _ _ _ _ _ e).
  - rewrite (zhat_loop_cons_write _ _ _ _ _ zj) by done. apply IH.
    apply Forall_fmap. eapply Forall_impl; [exact Ht|]. intros r Hr. simpl.
    destruct (FID r =? j) eqn:E; [|done]. simpl. intros Hi.
    apply Z.eqb_eq in E. congruence.
Qed.

Lemma write_zhat_same i z (q : list Row) :
  Forall (fun r => FID r = i -> Zhat r = Some z) q ->
  map (fun row => if FID row =? i then set_Zhat z row else row) q = q.
Proof.
  induction 1 as [|r q Hr _ IHq]; [done|]. simpl. rewrite IHq.
  destruct (FID r =? i) eqn:E; [|done].
  apply Z.eqb_eq in E. rewrite set_Zhat_id; [done|auto].
Qed.

Lemma zhat_loop_again pointElevs cardinals ids (t q : list Row) :
  map (fun r => (FID r, Zhat r)) q
  = map (fun r => (FID r, Zhat r)) (zhat_loop pointElevs cardinals ids t).1.1 ->
  (zhat_loop pointElevs cardinals ids q).1.1 = q
  /\ (zhat_loop pointElevs cardinals ids q).2
     = (zhat_loop pointElevs cardinals ids t).2.
Proof.
  revert t. induction ids as [|i ids IH]; intros t Hq; [done|].
  destruct (zhat_of pointElevs cardinals i) as [e|z] eqn:Hz.
  - by rewrite !(zhat_loop_cons_raise _ _ _ _ _ e).
  - rewrite !(zhat_loop_cons_write _ _ _ _ _ z) in * by done.
    set (t1 := map (fun row => if FID row =? i then set_Zhat z row else row) t) in *.
    assert (Hwritten : Forall (fun r => FID r = i -> Zhat r = Some z)
                         (zhat_loop pointElevs cardinals ids t1).1.1).
    { apply zhat_loop_keeps; [done|]. unfold t1. apply Forall_fmap, Forall_forall.
      intros r _. simpl. destruct (FID r =? i) eqn:E; [done|].
      intros Hi. apply Z.eqb_neq in E. done. }
    assert (Hq' : Forall (fun r => FID r = i -> Zhat r = Some z) q).
    { assert (H : Forall (fun x : Z * option num => x.1 = i -> x.2 = Some z)
                    (map (fun r => (FID r, Zhat r)) q)).
      { rewrite Hq. by apply Forall_fmap. }
      by apply Forall_fmap in H. }
    rewrite (write_zhat_same _ _ _ Hq'). by apply (IH t1).
Qed.

(** Normalising again changes nothing, and stops where it stopped. *)
Lemma tsi_again plotRadius (t : list Row) :
  (UpdateCursor (fun _ => true) (tsi_body plotRadius)
     (UpdateCursor (fun _ => true) (tsi_body plotRadius) t).1.1).1.1
  = (UpdateCursor (fun _ => true) (tsi_body plotRadius) t).1.1.
Proof.
  induction t as [|r t IH]; [done|].
  destruct (UpdateCursor_cons_cases (fun _ => true) (tsi_body plotRadius) r t)
    as [(ev & e & _ & Hb & Hu)|[(ev & r' & _ & Hb & Hu)|[? _]]]; [| |done];
    rewrite Hu; cbn [fst snd].
  - by rewrite Hu.
  - assert (Hr' : tsi_body plotRadius r' = ([], inr r')).
    { unfold tsi_body in *. destruct (py_div (Zhat r) plotRadius) as [e|v] eqn:Hv; [done|].
      injection Hb as _ <-. simpl. by rewrite Hv. }
    rewrite (UpdateCursor_cons_update _ _ _ _ [] r') by done. cbn [fst snd].
    by rewrite IH.
Qed.

Lemma calculate_tsi_again pointFile plotRadius :
  (calculate_tsi (calculate_tsi pointFile plotRadius).1 plotRadius).1
  = (calculate_tsi pointFile plotRadius).1.
Proof.
  pose proof (calculate_tsi_rows (calculate_tsi pointFile plotRadius).1 plotRadius) as Hr.
  rewrite (AddField_settled _ _ (calculate_tsi_settled pointFile plotRadius)) in Hr.
  rewrite (calculate_tsi_rows pointFile plotRadius), tsi_again,
    <- (calculate_tsi_rows pointFile plotRadius) in Hr.
  pose proof (calculate_tsi_reference (calculate_tsi pointFile plotRadius).1 plotRadius) as Hs.
  destruct (calculate_tsi (calculate_tsi pointFile plotRadius).1 plotRadius) as [[sr t] ev].
  destruct (calculate_tsi pointFile plotRadius) as [[sr' t'] ev'].
  simpl in *. congruence.
Qed.

Lemma calculate_zhat_again {S : SetOrder} pointFile cardinalFile (q : FeatureClass) :
  map (fun r => (FID r, RasElev r, Zhat r)) (rows q)
  = map (fun r => (FID r, RasElev r, Zhat r))
        (rows (calculate_zhat pointFile cardinalFile).1.1) ->
  (calculate_zhat q cardinalFile).1.1 = q
  /\ (calculate_zhat q cardinalFile).2 = (calculate_zhat pointFile cardinalFile).2.
Proof.
  intros Hq.
  assert (Hel : map RasElev (rows q) = map RasElev (rows pointFile)).
  { apply (f_equal (map (fun x : Z * option num * option num => x.1.2))) in Hq.
    rewrite !map_map in Hq. simpl in Hq.
    transitivity (map RasElev (rows (calculate_zhat pointFile cardinalFile).1.1));
      [exact Hq|by apply calculate_zhat_frame]. }
  assert (Hfz : map (fun r => (FID r, Zhat r)) (rows q)
                = map (fun r => (FID r, Zhat r))
                      (rows (calculate_zhat pointFile cardinalFile).1.1)).
  { apply (f_equal (map (fun x : Z * option num * option num => (x.1.1, x.2)))) in Hq.
    by rewrite !map_map in Hq. }
  assert (Hadd : AddField_management q Field_ZHat = q).
  { apply (AddField_again Field_ZHat (fun r => (FID r, Zhat r)) snd q _
             ltac:(done) Hfz).
    apply calculate_zhat_settled. }
  rewrite calculate_zhat_rows in Hfz.
  destruct (zhat_loop_again _ _ _ _ _ Hfz) as [Hrows Ho].
  pose proof (calculate_zhat_rows q cardinalFile) as Hr.
  pose proof (calculate_zhat_uncaught q cardinalFile) as Hu.
  rewrite Hadd, Hel in Hr, Hu. rewrite Hrows in Hr. rewrite Ho in Hu.
  split; [|by rewrite Hu, calculate_zhat_uncaught].
  pose proof (calculate_zhat_reference q cardinalFile) as Hs.
  destruct (calculate_zhat q cardinalFile) as [[[sr t] ev] o]. destruct q as [sr' t'].
  simpl in *. congruence.
Qed.

End Rerun.

Section RunTwice.

Context {F : Float} {T : Storage} {M : Math F} {S : SetOrder} {G : Reprojection}.

Lemma insert_cardinals_fold_ext plotRadius (t t' out : list Row) :
  map (fun r => (FID r, SHAPE_XY r)) t = map (fun r => (FID r, SHAPE_XY r)) t' ->
  fold_left (insert_cardinals plotRadius) t out
  = fold_left (insert_cardinals plotRadius) t' out.
Proof.
  revert t' out. induction t as [|a t IH]; intros [|b t'] out Ht; try done.
  injection Ht as Hfid Hxy Ht. simpl.
  replace (insert_cardinals plotRadius out b) with (insert_cardinals plotRadius out a)
    by (unfold insert_cardinals; by rewrite Hfid, Hxy).
  by apply IH.
Qed.

(** The cardinal file is a function of the spatial reference, the [FID]s and
    the coordinates of the point file. *)
Lemma create_cardinals_ext (P Q : FeatureClass) plotRadius :
  spatialReference P = spatialReference Q ->
  map (fun r => (FID r, SHAPE_XY r)) (rows P) = map (fun r => (FID r, SHAPE_XY r)) (rows Q) ->
  create_cardinals P plotRadius = create_cardinals Q plotRadius.
Proof.
  intros Hs Hr. unfold create_cardinals. simpl.
  by rewrite Hs, (insert_cardinals_fold_ext _ _ _ _ Hr).
Qed.

Lemma raster_extract_inv pointFile n ws pf' ws' log :
  raster_extract pointFile n ws = inr (pf', ws', log) ->
  exists ras, ws !! n = Some ras
    /\ ((String.eqb (name (spatialReference pointFile)) (name (rasterReference ras)) = true
         /\ pf' = (extract_elevation pointFile n ws).1 /\ ws' = ws)
        \/ (String.eqb (name (spatialReference pointFile)) (name (rasterReference ras)) = false
            /\ pf' = (extract_elevation pointFile outRaster
                        (<[outRaster := project ras (spatialReference pointFile)]> ws)).1
            /\ ws' = delete outRaster ws)).
Proof.
  intros Hre. destruct (ws !! n) as [ras|] eqn:Hn.
  - exists ras. split; [done|].
    destruct (String.eqb (name (spatialReference pointFile))
                         (name (rasterReference ras))) eqn:Heq.
    + left. rewrite (raster_extract_direct _ _ _ _ Hn Heq) in Hre.
      injection Hre as <- <- _. done.
    + right. rewrite (raster_extract_projected _ _ _ _ Hn Heq) in Hre.
      injection Hre as <- <- _. done.
  - by rewrite raster_extract_missing in Hre.
Qed.

(** After a run that sampled both files, sampling a point file that holds
    the sampled elevations, and then the cardinal file, gives the same two
    files and the same workspace. *)
Lemma sampling_again (P0 C0 : FeatureClass) n ws P1 ws1 ev1 C1 ws2 ev2 :
  raster_extract P0 n ws = inr (P1, ws1, ev1) ->
  raster_extract C0 n ws1 = inr (C1, ws2, ev2) ->
  spatialReference C0 = spatialReference P0 ->
  forall Pf,
    spatialReference Pf = spatialReference P0 ->
    map (fun r => (SHAPE_XY r, RasElev r)) (rows Pf)
    = map (fun r => (SHAPE_XY r, RasElev r)) (rows P1) ->
    exists ev1' ev2',
      raster_extract Pf n ws2 = inr (Pf, ws2, ev1')
      /\ raster_extract C0 n ws2 = inr (C1, ws2, ev2').
Proof.
  intros H1 H2 HC Pf HPf Hrows.
  apply raster_extract_inv in H1 as (ras & Hn & [(Heq & -> & ->)|(Heq & -> & ->)]).
  - (* equal names: the raster is read in place *)
    apply raster_extract_inv in H2 as (ras' & Hn' & H2).
    rewrite Hn in Hn'. injection Hn' as <-.
    rewrite HC, Heq in H2. destruct H2 as [(_ & -> & ->)|(? & _)]; [|done].
    eexists _, _. split.
    + rewrite (raster_extract_direct Pf n ws ras Hn) by (by rewrite HPf).
      by rewrite (extract_elevation_again P0 n ws Pf Hrows).
    + by rewrite (raster_extract_direct C0 n ws ras Hn) by (by rewrite HC).
  - (* different names: the raster is projected, read and deleted *)
    apply raster_extract_inv in H2 as (ras' & Hn' & H2).
    assert (Hne : outRaster <> n).
    { intros <-. by rewrite lookup_delete_eq in Hn'. }
    rewrite lookup_delete_ne, Hn in Hn' by done. injection Hn' as <-.
    rewrite HC, Heq in H2. destruct H2 as [(? & _)|(_ & -> & ->)]; [done|].
    rewrite delete_delete_eq.
    assert (Hn2 : delete outRaster ws !! n = Some ras)
      by (by rewrite lookup_delete_ne).
    eexists _, _. split.
    + rewrite (raster_extract_projected Pf n _ ras Hn2) by (by rewrite HPf).
      rewrite delete_delete_eq. repeat f_equal.
      rewrite HPf.
      rewrite <- (extract_elevation_again P0 outRaster
                    (<[outRaster := project ras (spatialReference P0)]> ws) Pf Hrows)
        at 2.
      apply extract_elevation_raster. by rewrite !lookup_insert_eq.
    + rewrite (raster_extract_projected C0 n _ ras Hn2) by (by rewrite HC).
      rewrite delete_delete_eq, HC. reflexivity.
Qed.

(** C8.  A second run on what the first left behind (the point file with
    its three columns, the workspace, the same radius and raster name) ends
    the way the first did and leaves the point file exactly as the first left
    it: the columns are written again with the same values, nothing is
    accumulated.  In particular the TSI column is the same. *)
Theorem main_twice :
  forall (inputPlots : FeatureClass) (inputRadius : num) (inputRaster : string)
         (ws : Workspace),
    let first := main inputPlots inputRadius inputRaster ws in
    let second := main (run_plots first) inputRadius inputRaster (run_workspace first) in
    run_plots second = run_plots first
    /\ map TSI (rows (run_plots second)) = map TSI (rows (run_plots first))
    /\ run_uncaught second = run_uncaught first
    /\ run_workspace second = run_workspace first.
Proof.
  intros P0 r n ws first second.
  assert (Hgoal : run_plots second = run_plots first
                  /\ run_uncaught second = run_uncaught first
                  /\ run_workspace second = run_workspace first).
  2: { destruct Hgoal as (Hp & Hu & Hw). by rewrite Hp. }
  unfold second, first. clear first second.
  rewrite (main_unfold P0). cbv zeta.
  destruct (raster_extract P0 n ws) as [e|[[P1 ws1] ev1]] eqn:H1.
  { (* nothing was written: the second run is the first *)
    simpl. rewrite main_unfold. cbv zeta. by rewrite H1. }
  destruct (raster_extract_frame (fun x => (FID x, SHAPE_XY x)) _ _ _ _ _ _
              ltac:(done) H1) as [Hs1 Hg1].
  destruct (raster_extract (create_cardinals P0 r).1 n ws1)
    as [e|[[C1 ws2] ev2]] eqn:H2.
  { (* the raster is gone after the first batch *)
    simpl. rewrite main_unfold. cbv zeta.
    assert (Hn : ws1 !! n = None).
    { unfold raster_extract in H2. destruct (ws1 !! n); [|done].
      destruct (String.eqb _ _); by destruct (extract_elevation _ _ _). }
    rewrite (raster_extract_missing _ _ _ Hn) in H2.
    rewrite (raster_extract_missing P1 _ _ Hn).
    injection H2 as <-. done. }
  (* both files were sampled *)
  assert (Hagain : forall Pf,
            same_beside (fun x => (FID x, SHAPE_XY x, RasElev x)) Pf P1 ->
            exists ev1' ev2',
              raster_extract Pf n ws2 = inr (Pf, ws2, ev1')
              /\ raster_extract (create_cardinals Pf r).1 n ws2 = inr (C1, ws2, ev2')).
  { intros Pf [HsPf HgPf].
    assert (Hcards : create_cardinals Pf r = create_cardinals P0 r).
    { apply create_cardinals_ext; [congruence|]. rewrite <- Hg1.
      apply (f_equal (map (fun x : Z * XY * option num => x.1))) in HgPf.
      by rewrite !map_map in HgPf. }
    rewrite Hcards.
    apply (sampling_again P0 _ n ws P1 ws1 ev1 C1 ws2 ev2 H1 H2);
      [apply create_cardinals_reference|congruence|].
    apply (f_equal (map (fun x : Z * XY * option num => (x.1.2, x.2)))) in HgPf.
    by rewrite !map_map in HgPf. }
  destruct (calculate_zhat P1 C1).2 as [e|] eqn:Ho; simpl.
  - (* the first run raised in calculate_zhat *)
    destruct (Hagain (calculate_zhat P1 C1).1.1) as (ev1' & ev2' & Hr1 & Hr2).
    { split; [apply calculate_zhat_reference|by apply calculate_zhat_frame]. }
    rewrite main_unfold. cbv zeta. rewrite Hr1, Hr2.
    destruct (calculate_zhat_again P1 C1 (calculate_zhat P1 C1).1.1 Logic.eq_refl)
      as [Hp Hu].
    by rewrite Hu, Ho, Hp.
  - (* the first run reached calculate_tsi *)
    set (P2 := (calculate_zhat P1 C1).1.1) in *.
    destruct (Hagain (calculate_tsi P2 r).1) as (ev1' & ev2' & Hr1 & Hr2).
    { split.
      - rewrite calculate_tsi_reference. apply calculate_zhat_reference.
      - rewrite (calculate_tsi_frame _ P2) by done.
        by apply calculate_zhat_frame. }
    rewrite main_unfold. cbv zeta. rewrite Hr1, Hr2.
    destruct (calculate_zhat_again P1 C1 (calculate_tsi P2 r).1) as [Hp Hu].
    { by apply calculate_tsi_frame. }
    rewrite Hu, Ho, Hp. simpl. by rewrite calculate_tsi_again.
Qed.

End RunTwice.

(** * Worked examples *)

(** ** In binary64 arithmetic *)

Section Binary64Examples.

#[local] Existing Instance binary64.
#[local] Existing Instance shapefile.
#[local] Existing Instance first_seen.
#[local] Existing Instance relabel.

(** Against C3 as stated: sampling fails at the second of three points of a
    shapefile; the third lies inside the raster, where the elevation is 7, and
    is never read: it holds the 0.0 of the new field, as the second does. *)
Lemma extract_elevation_skips_later_points :
  GetCellValue (dem_workspace utm17) "dem.tif" (2, 2)%float = inr 7%float
  /\ map RasElev (rows (extract_elevation three_points "dem.tif" (dem_workspace utm17)).1)
     = [Some 7%float; Some 0%float; Some 0%float]
  /\ (extract_elevation three_points "dem.tif" (dem_workspace utm17)).2
     = [ GetCellValue_management "dem.tif" (1, 1)%float;
         GetCellValue_management "dem.tif" (0, 0)%float;
         printArc ErrorOccurred; print_exc ValueError;
         printArc (ElevationAdded "dem.tif") ].
Proof. vm_compute. done. Qed.

Lemma extract_elevation_stops_at_failure_witness :
  rows three_points !! 1%nat = Some (point 1 0 0)
  /\ GetCellValue (dem_workspace utm17) "dem.tif" (SHAPE_XY (point 1 0 0)) = inl ValueError
  /\ rows (extract_elevation three_points "dem.tif" (dem_workspace utm17)).1 !! 2%nat
     = rows (AddField_management three_points Field_RasElev) !! 2%nat
  /\ exists ev,
       (extract_elevation three_points "dem.tif" (dem_workspace utm17)).2
       = ev ++ [printArc ErrorOccurred; print_exc ValueError;
                printArc (ElevationAdded "dem.tif")].
Proof.
  assert (H1 : rows three_points !! 1%nat = Some (point 1 0 0)) by reflexivity.
  assert (H2 : GetCellValue (dem_workspace utm17) "dem.tif" (SHAPE_XY (point 1 0 0))
               = inl ValueError) by (vm_compute; reflexivity).
  assert (H3 : forall j x, (j < 1)%nat -> rows three_points !! j = Some x ->
            exists v, GetCellValue (dem_workspace utm17) "dem.tif" (SHAPE_XY x) = inr v).
  { intros [|j] x Hj Hx; [|lia]. injection Hx as <-.
    exists 7%float. vm_compute. reflexivity. }
  destruct (extract_elevation_stops_at_failure three_points "dem.tif"
              (dem_workspace utm17) 1 (point 1 0 0) ValueError H1 H2 H3)
    as (_ & Hrest & Hlog).
  split; [exact H1|]. split; [exact H2|]. split; [|exact Hlog].
  apply Hrest. lia.
Defined.

(** C1.  A point file read through a layer whose selection holds the records
    with [FID] 1 and 2, each with one cardinal record.  [calculate_zhat]
    selects the cardinal records and the row to write by identifier, and
    looks the elevation of the plot up by position: the plot with [FID] 1 gets
    13 - 20 = -7, the deviation from the elevation of the other plot, where
    the mean of its own deviations is 13 - 10 = 3; for the identifier 2 the
    list of the two plot elevations has no index, the function raises
    [IndexError] and the second plot keeps the 0.0 of the new field, where
    its mean is 26 - 20 = 6. *)
Theorem calculate_zhat_looks_up_by_position :
  map FID (rows selected_plots) = [1; 2]
  /\ map (fun c => (Id c, RasElev c)) (rows selected_cardinals)
     = [(1, Some 13%float); (2, Some 26%float)]
  /\ map RasElev (rows selected_plots) = [Some 10%float; Some 20%float]
  /\ map (computeZHat_spec (rows selected_cardinals)) (rows selected_plots)
     = [Some 3%float; Some 6%float]
  /\ map Zhat (rows (calculate_zhat selected_plots selected_cardinals).1.1)
     = [Some (-7)%float; Some 0%float]
  /\ (calculate_zhat selected_plots selected_cardinals).2 = Some IndexError.
Proof. repeat split; vm_compute; reflexivity. Qed.

(** The scenario of the specification: deviations 5, -5, 10, -10, 2, -2, 8
    and -8, z-hat 0. *)
Lemma calculate_zhat_mean_of_eight :
  (calculate_zhat one_plot eight_cardinals).2 = None
  /\ rows (calculate_zhat one_plot eight_cardinals).1.1 !! 0%nat
     = Some (set_Zhat 0%float (sampled_point 0 0 (Some 50%float)))
  /\ computeZHat_spec (rows eight_cardinals) (sampled_point 0 0 (Some 50%float))
     = Some 0%float.
Proof.
  assert (H1 : Forall (fun c => is_Some (RasElev c)) (rows eight_cardinals)).
  { repeat (apply Forall_cons_2; [by eexists|]). apply Forall_nil_2. }
  assert (H2 : Forall (fun p => is_Some (RasElev p)) (rows one_plot)).
  { repeat (apply Forall_cons_2; [by eexists|]). apply Forall_nil_2. }
  assert (H3 : forall k p, rows one_plot !! k = Some p -> FID p = Z.of_nat k).
  { intros [|k] p Hp; [|done]. by injection Hp as <-. }
  assert (H4 : Forall (fun c => exists p, p ∈ rows one_plot /\ Id c = FID p)
                 (rows eight_cardinals)).
  { repeat (apply Forall_cons_2;
            [exists (sampled_point 0 0 (Some 50%float)); split; [by left|done]|]).
    apply Forall_nil_2. }
  destruct (calculate_zhat_mean one_plot eight_cardinals H1 H2 H3 H4) as [Ho Hrows].
  split; [exact Ho|].
  destruct (Hrows 0%nat (sampled_point 0 0 (Some 50%float)) Logic.eq_refl)
    as [_ Hown].
  destruct Hown as (pe & Hpe & _ & Hrow & Hspec); [done|].
  injection Hpe as <-. split; [exact Hrow|exact Hspec].
Qed.

(** Against C5 as stated, in a table that admits nulls: the second plot has
    a z-hat and gets no TSI, because the loop stopped at the first. *)
Lemma calculate_tsi_skips_later_plots :
  map Zhat (rows second_has_zhat) = [None; Some 3%float]
  /\ is_zero 15%float = false
  /\ map TSI (rows (calculate_tsi (T:=geodatabase) second_has_zhat 15%float).1)
     = [None; None].
Proof. vm_compute. done. Qed.

Lemma calculate_tsi_until_missing_zhat_witness :
  rows (calculate_tsi (T:=geodatabase) second_has_zhat 15%float).1 !! 1%nat
  = rows (AddField_management (T:=geodatabase) second_has_zhat Field_TSI) !! 1%nat
  /\ (calculate_tsi (T:=geodatabase) second_has_zhat 15%float).2
     = [printArc ErrorOccurred; print_exc TypeError; printArc TSICalculated].
Proof.
  destruct (calculate_tsi_until_missing_zhat (T:=geodatabase) second_has_zhat 15%float)
    as [_ H].
  destruct (H 0%nat _ Logic.eq_refl Logic.eq_refl) as [Hrows (e & Hlog & He)].
  split; [apply Hrows; lia|].
  rewrite Hlog. by rewrite (He Logic.eq_refl).
Defined.

(** Against C6 as stated: the point file and the raster have different
    spatial references with the same name, and the raster is read as it is. *)
Lemma raster_extract_same_name_no_projection :
  spatialReference three_points <> rasterReference (half_plane utm17_custom)
  /\ match raster_extract three_points "dem.tif" (dem_workspace utm17_custom) with
     | inl _ => False
     | inr (_, ws', log) =>
         existsb is_projection log = false
         /\ Forall (samples_only "dem.tif") log
         /\ ws' = dem_workspace utm17_custom
     end.
Proof.
  split; [done|].
  rewrite (raster_extract_direct _ _ _ (half_plane utm17_custom)); [|done..].
  pose proof (extract_elevation_samples_only three_points "dem.tif"
                (dem_workspace utm17_custom)) as Hlog.
  split; [by apply (samples_only_no_projection "dem.tif")|done].
Qed.

Lemma raster_extract_projects_once_witness :
  dem_workspace state_plane !! "dem.tif"%string = Some (half_plane state_plane)
  /\ name (spatialReference three_points) <> name (rasterReference (half_plane state_plane))
  /\ (exists pf' ev,
        raster_extract three_points "dem.tif" (dem_workspace state_plane)
        = inr (pf', delete outRaster (dem_workspace state_plane),
               ProjectRaster_management "dem.tif" outRaster utm17
                 :: ev ++ [Delete_management outRaster])
        /\ Forall (samples_only outRaster) ev)
  /\ delete outRaster (dem_workspace state_plane) !! outRaster = None.
Proof.
  assert (H1 : dem_workspace state_plane !! "dem.tif"%string
               = Some (half_plane state_plane)) by reflexivity.
  assert (H2 : name (spatialReference three_points)
               <> name (rasterReference (half_plane state_plane))) by done.
  destruct (raster_extract_projects_once three_points "dem.tif"
              (dem_workspace state_plane) (half_plane state_plane) H1) as [Hdiff _].
  destruct (Hdiff H2) as (Hrun & Hlog & Hgone).
  split; [exact H1|]. split; [exact H2|]. split; [|exact Hgone].
  eexists _, _. split; [exact Hrun|exact Hlog].
Defined.

Lemma raster_extract_compares_names_witness :
  dem_workspace utm17_custom !! "dem.tif"%string = Some (half_plane utm17_custom)
  /\ exists pf' ws' log,
       raster_extract three_points "dem.tif" (dem_workspace utm17_custom)
       = inr (pf', ws', log)
       /\ existsb is_projection log = false
       /\ ws' = dem_workspace utm17_custom.
Proof.
  assert (H1 : dem_workspace utm17_custom !! "dem.tif"%string
               = Some (half_plane utm17_custom)) by reflexivity.
  split; [exact H1|].
  destruct (raster_extract_compares_names three_points "dem.tif"
              (dem_workspace utm17_custom) (half_plane utm17_custom) H1)
    as (pf' & ws' & log & Hrun & Hproj & Hsame).
  exists pf', ws', log. split; [exact Hrun|]. split; [exact Hproj|].
  by destruct (Hsame Logic.eq_refl) as (_ & -> & _).
Defined.

End Binary64Examples.

(** * Further properties *)

(** ** Cursor loops, continued *)

Section CursorMore.

Context {F : Float} {T : Storage}.

Implicit Types (t : list Row) (body : Row -> list Event * (Exn + Row)).

(** A loop over all rows ends normally exactly when no body raises. *)
Lemma UpdateCursor_None_iff body t :
  (UpdateCursor (fun _ => true) body t).2 = None
  <-> Forall (fun r => exists r', (body r).2 = inr r') t.
Proof.
  induction t as [|r t IH]; [by split; [constructor|]|].
  destruct (UpdateCursor_cons_cases (fun _ => true) body r t)
    as [(ev & e & _ & Hb & ->)|[(ev & r' & _ & Hb & ->)|[? _]]]; [| |done]; simpl.
  - split; [done|]. intros H. apply Forall_cons in H as [[r' Hr'] _].
    rewrite Hb in Hr'. done.
  - rewrite IH. split.
    + intros H. apply Forall_cons. split; [|done]. exists r'. by rewrite Hb.
    + intros H. by apply Forall_cons in H as [_ H].
Qed.

Lemma UpdateCursor_Some_iff body t :
  (exists e, (UpdateCursor (fun _ => true) body t).2 = Some e)
  <-> exists r, r ∈ t /\ raises body r.
Proof.
  induction t as [|r t IH].
  - split; [by intros [e He]|]. intros (r & Hr & _). by apply elem_of_nil in Hr.
  - destruct (UpdateCursor_cons_cases (fun _ => true) body r t)
      as [(ev & e & _ & Hb & ->)|[(ev & r' & _ & Hb & ->)|[? _]]]; [| |done]; simpl.
    + split; [|eauto]. intros _. exists r. split; [by left|].
      exists e. by rewrite Hb.
    + rewrite IH. split.
      * intros (x & Hx & Hraise). exists x. split; [by right|done].
      * intros (x & Hx & Hraise). apply elem_of_cons in Hx as [->|Hx]; [|eauto].
        destruct Hraise as [e He]. rewrite Hb in He. done.
Qed.

(** When no body raises, the loop is a map. *)
Lemma UpdateCursor_all body (g : Row -> Row) t :
  (forall r, r ∈ t -> (body r).2 = inr (g r)) ->
  (UpdateCursor (fun _ => true) body t).1.1 = map g t
  /\ (UpdateCursor (fun _ => true) body t).2 = None.
Proof.
  induction t as [|r t IH]; intros Hb; [done|].
  assert (Hr : (body r).2 = inr (g r)) by (apply Hb; by left).
  destruct (body r) as [ev s] eqn:E. simpl in Hr. subst s.
  rewrite (UpdateCursor_cons_update _ _ _ _ ev (g r)) by done. simpl.
  destruct IH as [-> ->]; [|done]. intros x Hx. apply Hb. by right.
Qed.

(** The events of a loop are those of the bodies of a prefix of the table,
    in order: the whole table when the loop ends normally. *)
Lemma UpdateCursor_events_prefix body t :
  exists k, (k <= length t)%nat
    /\ (UpdateCursor (fun _ => true) body t).1.2
       = flat_map (fun r => (body r).1) (take k t)
    /\ ((UpdateCursor (fun _ => true) body t).2 = None -> k = length t)
    /\ (forall e, (UpdateCursor (fun _ => true) body t).2 = Some e ->
          exists r, t !! (k - 1)%nat = Some r /\ (body r).2 = inl e /\ (0 < k)%nat).
Proof.
  induction t as [|r t (k & Hk & Hev & Hnone & Hsome)].
  - exists 0%nat. repeat split; [done..|]. intros e He. done.
  - destruct (UpdateCursor_cons_cases (fun _ => true) body r t)
      as [(ev & e & _ & Hb & ->)|[(ev & r' & _ & Hb & ->)|[? _]]]; [| |done]; simpl.
    + exists 1%nat. split; [lia|].
      split; [change (take 1 (r :: t)) with [r]; simpl; by rewrite Hb, app_nil_r|].
      split; [done|]. intros e' [= <-]. exists r. rewrite Hb.
      split; [reflexivity|]. split; [reflexivity|lia].
    + exists (S k). split; [lia|].
      split; [rewrite firstn_cons; simpl; by rewrite Hb, Hev|].
      split; [intros Ho; by rewrite Hnone|].
      intros e He. destruct (Hsome e He) as (x & Hx & Hbx & Hpos).
      exists x. split; [|split; [done|lia]]. simpl. rewrite Nat.sub_0_r.
      destruct k; [lia|]. simpl in Hx. by rewrite Nat.sub_0_r in Hx.
Qed.

(** When the first body that raises is that of the row in position [k],
    the events of the loop are those of the bodies of the rows up to and
    including that one. *)
Lemma UpdateCursor_events_raise body t k r e :
  t !! k = Some r ->
  (body r).2 = inl e ->
  (forall j x, (j < k)%nat -> t !! j = Some x -> exists x', (body x).2 = inr x') ->
  (UpdateCursor (fun _ => true) body t).1.2
  = flat_map (fun x => (body x).1) (take (S k) t).
Proof.
  revert k. induction t as [|a t IH]; intros k Hk He Hpre; [done|].
  destruct k as [|k].
  - simpl in Hk. injection Hk as ->.
    destruct (body r) as [ev s] eqn:Hb. simpl in He. subst s.
    rewrite (UpdateCursor_cons_raise _ _ _ _ ev e) by done.
    change (take 1 (r :: t)) with [r]. simpl. by rewrite Hb, app_nil_r.
  - simpl in Hk.
    destruct (Hpre 0%nat a) as [a' Ha']; [lia|done|].
    destruct (body a) as [ev s] eqn:Hb. simpl in Ha'. subst s.
    rewrite (UpdateCursor_cons_update _ _ _ _ ev a') by done.
    rewrite firstn_cons. cbn [flat_map fst snd]. rewrite Hb. cbn [fst]. f_equal.
    apply (IH k Hk He). intros j x Hj Hx. apply (Hpre (S j) x); [lia|done].
Qed.

End CursorMore.

(** ** Sampling, continued *)

Section SamplingMore.

Context {F : Float} {T : Storage}.

Lemma extract_body_raises ws n (r : Row) :
  raises (extract_body ws n) r <-> exists e, GetCellValue ws n (SHAPE_XY r) = inl e.
Proof.
  unfold raises. rewrite extract_body_result.
  destruct (GetCellValue ws n (SHAPE_XY r)) as [e|v]; split; intros [e' He'];
    first [done|by exists e].
Qed.

Lemma extract_body_events ws n (r : Row) :
  (extract_body ws n r).1 = [GetCellValue_management n (SHAPE_XY r)].
Proof. reflexivity. Qed.

Lemma report_error o : printArc ErrorOccurred ∈ report o <-> exists e, o = Some e.
Proof.
  destruct o as [e|]; simpl.
  - split; [eauto|]. intros _. by left.
  - split; [intros H; by apply elem_of_nil in H|by intros [e He]].
Qed.

Lemma no_error_in_reads n (l : list Row) :
  printArc ErrorOccurred ∉ flat_map (fun r => (extract_body n.1 n.2 r).1) l.
Proof.
  induction l as [|r l IH]; [by apply not_elem_of_nil|].
  simpl. intros H. apply elem_of_cons in H as [H|H]; [done|by apply IH].
Qed.

(** The reads of a batch are at the coordinates of the rows, with or
    without the added field. *)
Lemma reads_add_field ws n (l : list Row) :
  flat_map (fun r => (extract_body ws n r).1) (map (add_field Field_RasElev) l)
  = map (fun p => GetCellValue_management n (SHAPE_XY p)) l.
Proof.
  induction l as [|r l IH]; [done|].
  cbn [map flat_map]. rewrite IH, extract_body_events, add_field_SHAPE_XY.
  reflexivity.
Qed.

(** X1.  [extract_elevation] reports an error exactly when the cell read
    fails at some point of the file.  When it fails at none, every point is
    written the value read at its own coordinates and the console shows the
    reads and the final message only. *)
Theorem extract_elevation_reports_exactly_failures :
  forall (pointFile : FeatureClass) (elevationRaster : string) (ws : Workspace),
    let result := extract_elevation pointFile elevationRaster ws in
    (printArc ErrorOccurred ∈ result.2
       <-> exists p, p ∈ rows pointFile
             /\ exists e, GetCellValue ws elevationRaster (SHAPE_XY p) = inl e)
    /\ (Forall (fun p => exists v, GetCellValue ws elevationRaster (SHAPE_XY p) = inr v)
          (rows pointFile) ->
        Forall2 (fun p p' => exists v,
                   GetCellValue ws elevationRaster (SHAPE_XY p) = inr v
                   /\ p' = set_RasElev v p)
          (rows pointFile) (rows result.1)
        /\ result.2
           = map (fun p => GetCellValue_management elevationRaster (SHAPE_XY p))
               (rows pointFile)
             ++ [printArc (ElevationAdded elevationRaster)]).
Proof.
  intros pointFile n ws result. unfold result.
  rewrite extract_elevation_rows, extract_elevation_log, AddField_rows.
  set (body := extract_body ws n).
  set (t := map (add_field Field_RasElev) (rows pointFile)).
  destruct (UpdateCursor_events_prefix body t) as (k & Hk & Hev & Hnone & _).
  split.
  - rewrite Hev, !elem_of_app, report_error, UpdateCursor_Some_iff.
    split.
    + intros [H|[H|H]].
      * exfalso. by apply (no_error_in_reads (ws, n) (take k t)).
      * destruct H as (r & Hr & Hraise).
        apply list_elem_of_fmap in Hr as (p & -> & Hp). exists p. split; [done|].
        apply extract_body_raises in Hraise. by rewrite add_field_SHAPE_XY in Hraise.
      * apply list_elem_of_singleton in H. done.
    + intros (p & Hp & He). right. left. exists (add_field Field_RasElev p).
      split; [apply list_elem_of_fmap; by exists p|].
      apply extract_body_raises. by rewrite add_field_SHAPE_XY.
  - intros Hall.
    set (g := fun p : Row => match GetCellValue ws n (SHAPE_XY p) with
                             | inl _ => p
                             | inr v => set_RasElev v p
                             end).
    destruct (UpdateCursor_all body g t) as [Hrows Ho].
    { intros r Hr. apply list_elem_of_fmap in Hr as (p & -> & Hp).
      destruct (proj1 (Forall_forall _ _) Hall p Hp) as [v Hv].
      unfold body, g. rewrite extract_body_result, add_field_SHAPE_XY. by rewrite Hv. }
    rewrite Hrows, Ho, Hev, (Hnone Ho). split.
    + unfold t. rewrite map_map. apply Forall2_fmap_r, Forall_Forall2_diag.
      eapply Forall_impl; [exact Hall|]. intros p [v Hv]. exists v.
      split; [done|]. unfold g. rewrite add_field_SHAPE_XY, Hv.
      apply set_RasElev_add_field.
    + rewrite firstn_all. unfold t, body. by rewrite reads_add_field.
Qed.

(** X2.  [extract_elevation] reads the cells in the order of the rows, one
    read per row, and stops at the first failing read: when the first read
    that fails is that of the row in position [k], the console shows the
    reads of the rows in positions 0 to [k] and no other read, then the error
    report with the exception of that read, then the final message. *)
Theorem extract_elevation_reads_in_order :
  forall (pointFile : FeatureClass) (elevationRaster : string) (ws : Workspace)
         (k : nat) (r : Row) (e : Exn),
    rows pointFile !! k = Some r ->
    GetCellValue ws elevationRaster (SHAPE_XY r) = inl e ->
    (forall j x, (j < k)%nat -> rows pointFile !! j = Some x ->
       exists v, GetCellValue ws elevationRaster (SHAPE_XY x) = inr v) ->
    (extract_elevation pointFile elevationRaster ws).2
    = map (fun p => GetCellValue_management elevationRaster (SHAPE_XY p))
        (take (S k) (rows pointFile))
      ++ [printArc ErrorOccurred; print_exc e;
          printArc (ElevationAdded elevationRaster)].
Proof.
  intros pointFile n ws k r e Hk He Hpre.
  rewrite extract_elevation_log, AddField_rows.
  set (t := map (add_field Field_RasElev) (rows pointFile)).
  assert (Hk' : t !! k = Some (add_field Field_RasElev r))
    by (unfold t; by rewrite list_lookup_fmap, Hk).
  assert (He' : (extract_body ws n (add_field Field_RasElev r)).2 = inl e)
    by (by rewrite extract_body_add_field, He).
  assert (Hpre' : forall j y, (j < k)%nat -> t !! j = Some y ->
            exists y', (extract_body ws n y).2 = inr y').
  { intros j y Hj Hy. unfold t in Hy. rewrite list_lookup_fmap in Hy.
    destruct (rows pointFile !! j) as [x|] eqn:Hx; [|done]. injection Hy as <-.
    destruct (Hpre j x Hj Hx) as [v Hv].
    exists (set_RasElev v x). by rewrite extract_body_add_field, Hv. }
  rewrite (UpdateCursor_events_raise _ _ _ _ _ Hk' He' Hpre').
  destruct (UpdateCursor_raise _ _ _ _ _ Hk' He' Hpre') as [-> _].
  unfold t. change (map (add_field Field_RasElev) (rows pointFile))
    with (add_field Field_RasElev <$> rows pointFile).
  rewrite <- fmap_take. apply (f_equal (fun l => l ++ _)). apply reads_add_field.
Qed.

End SamplingMore.

(** ** TSI, continued *)

Section TsiMore.

Context {F : Float} {T : Storage}.

Lemma tsi_body_raises plotRadius (r : Row) :
  raises (tsi_body plotRadius) r <-> Zhat r = None \/ is_zero plotRadius = true.
Proof.
  unfold raises. rewrite tsi_body_result. unfold py_div.
  destruct (Zhat r) as [z|]; [|split; eauto].
  destruct (is_zero plotRadius); split; eauto.
  - intros [e He]. done.
  - intros [H|H]; done.
Qed.

Lemma Zhat_add_field_TSI (r : Row) : Zhat (add_field Field_TSI r) = Zhat r.
Proof. exact (add_field_other Field_TSI Field_ZHat r ltac:(done)). Qed.

(** With a z-hat in every record and a radius that is not zero the loop of
    [calculate_tsi] writes every record. *)
Lemma calculate_tsi_all pointFile plotRadius :
  is_zero plotRadius = false ->
  Forall (fun p => is_Some (Zhat p)) (rows pointFile) ->
  rows (calculate_tsi pointFile plotRadius).1
  = map (fun p => match Zhat p with
                  | Some z => set_TSI (fdiv z plotRadius) p
                  | None => p
                  end) (rows pointFile)
  /\ (calculate_tsi pointFile plotRadius).2 = [printArc TSICalculated].
Proof.
  intros Hr Hall. rewrite calculate_tsi_rows, calculate_tsi_console, AddField_rows.
  set (g := fun p : Row => match Zhat p with
                           | Some z => set_TSI (fdiv z plotRadius) p
                           | None => p
                           end).
  destruct (UpdateCursor_all (tsi_body plotRadius) g
              (map (add_field Field_TSI) (rows pointFile))) as [Hrows Ho].
  { intros r Hin. apply list_elem_of_fmap in Hin as (p & -> & Hp).
    destruct (proj1 (Forall_forall _ _) Hall p Hp) as [z Hz].
    unfold g. rewrite Zhat_add_field_TSI, Hz. apply tsi_body_defined; [done|].
    by rewrite Zhat_add_field_TSI. }
  rewrite Hrows, Ho. split; [|done].
  rewrite map_map. apply map_ext_Forall. eapply Forall_impl; [exact Hall|].
  intros p [z Hz]. unfold g. rewrite Zhat_add_field_TSI, Hz.
  apply set_TSI_add_field.
Qed.

(** X3.  [calculate_tsi] reports an error exactly when the point file has a
    plot without z-hat, or has a plot at all and the radius is zero.  In the
    other case every plot gets [TSI = Zhat / plotRadius] and the console shows
    the final message only. *)
Theorem calculate_tsi_reports_exactly_failures :
  forall (pointFile : FeatureClass) (plotRadius : num),
    let result := calculate_tsi pointFile plotRadius in
    (printArc ErrorOccurred ∈ result.2
       <-> exists p, p ∈ rows pointFile
             /\ (Zhat p = None \/ is_zero plotRadius = true))
    /\ (is_zero plotRadius = false ->
        Forall (fun p => is_Some (Zhat p)) (rows pointFile) ->
        Forall2 (fun p p' => exists z, Zhat p = Some z
                             /\ p' = set_TSI (fdiv z plotRadius) p)
          (rows pointFile) (rows result.1)
        /\ result.2 = [printArc TSICalculated]).
Proof.
  intros pointFile plotRadius result. unfold result. split.
  - rewrite calculate_tsi_console, AddField_rows.
    rewrite elem_of_app, report_error, UpdateCursor_Some_iff. split.
    + intros [(r & Hr & Hraise)|H].
      * apply list_elem_of_fmap in Hr as (p & -> & Hp). exists p.
        split; [done|]. apply tsi_body_raises in Hraise.
        by rewrite Zhat_add_field_TSI in Hraise.
      * apply list_elem_of_singleton in H. done.
    + intros (p & Hp & Hw). left. exists (add_field Field_TSI p).
      split; [apply list_elem_of_fmap; by exists p|].
      apply tsi_body_raises. by rewrite Zhat_add_field_TSI.
  - intros Hr Hall.
    destruct (calculate_tsi_all pointFile plotRadius Hr Hall) as [-> ->].
    split; [|done].
    apply Forall2_fmap_r, Forall_Forall2_diag.
    eapply Forall_impl; [exact Hall|]. intros p [z Hz]. exists z.
    split; [done|]. by rewrite Hz.
Qed.

(** X4.  With a radius of zero [calculate_tsi] writes nothing: the division
    raises at the first plot, whatever its z-hat, so the point file is returned
    as [AddField_management] left it, and the error is reported when the file
    has a plot. *)
Theorem calculate_tsi_zero_radius :
  forall (pointFile : FeatureClass) (plotRadius : num),
    is_zero plotRadius = true ->
    (calculate_tsi pointFile plotRadius).1 = AddField_management pointFile Field_TSI
    /\ (rows pointFile <> [] ->
        exists e, (calculate_tsi pointFile plotRadius).2
                  = [printArc ErrorOccurred; print_exc e; printArc TSICalculated]).
Proof.
  intros pointFile plotRadius Hr.
  set (t := rows (AddField_management pointFile Field_TSI)).
  assert (H : (UpdateCursor (fun _ => true) (tsi_body plotRadius) t).1.1 = t
              /\ (rows pointFile <> [] ->
                  exists e, (UpdateCursor (fun _ => true) (tsi_body plotRadius) t).2
                            = Some e)).
  { unfold t. rewrite AddField_rows.
    destruct (rows pointFile) as [|r l]; [done|]. cbn [map].
    destruct (proj2 (tsi_body_raises plotRadius (add_field Field_TSI r)) (or_intror Hr))
      as [e He].
    destruct (tsi_body plotRadius (add_field Field_TSI r)) as [ev s] eqn:Hb.
    simpl in He. subst s.
    rewrite (UpdateCursor_cons_raise _ _ _ _ ev e) by done. eauto. }
  destruct H as [Hrows Ho]. split.
  - pose proof (calculate_tsi_rows pointFile plotRadius) as Hr'.
    pose proof (calculate_tsi_reference pointFile plotRadius) as Hs.
    fold t in Hr'. rewrite Hrows in Hr'.
    destruct (calculate_tsi pointFile plotRadius) as [[sr t'] ev].
    unfold AddField_management, with_rows. simpl in *. unfold t in Hr'.
    by rewrite Hs, Hr'.
  - intros Hne. destruct (Ho Hne) as [e He]. exists e.
    rewrite calculate_tsi_console. fold t. by rewrite He.
Qed.

End TsiMore.

(** ** z-hat, continued *)

Section ZhatMore.

Context {F : Float} {T : Storage}.

Implicit Types (t cardinals : list Row) (pointElevs : list (option num)).

Lemma zhat_loop_events pointElevs cardinals ids t :
  (zhat_loop pointElevs cardinals ids t).1.2 = [].
Proof.
  revert t. induction ids as [|i ids IH]; intros t; [done|].
  destruct (zhat_of pointElevs cardinals i) as [e|z] eqn:Hz.
  - by rewrite (zhat_loop_cons_raise _ _ _ _ _ e).
  - by rewrite (zhat_loop_cons_write _ _ _ _ _ z).
Qed.

Lemma zhat_loop_None pointElevs cardinals ids t :
  (zhat_loop pointElevs cardinals ids t).2 = None ->
  forall i, i ∈ ids -> exists z, zhat_of pointElevs cardinals i = inr z.
Proof.
  revert t. induction ids as [|j ids IH]; intros t Ho i Hi.
  - by apply elem_of_nil in Hi.
  - destruct (zhat_of pointElevs cardinals j) as [e|z] eqn:Hz.
    + by rewrite (zhat_loop_cons_raise _ _ _ _ _ e) in Ho.
    + rewrite (zhat_loop_cons_write _ _ _ _ _ z) in Ho by done.
      apply elem_of_cons in Hi as [->|Hi]; [eauto|]. by apply (IH _ Ho).
Qed.

Lemma zhat_loop_Some pointElevs cardinals ids t e :
  (zhat_loop pointElevs cardinals ids t).2 = Some e ->
  exists i, i ∈ ids /\ zhat_of pointElevs cardinals i = inl e.
Proof.
  revert t. induction ids as [|j ids IH]; intros t Ho; [done|].
  destruct (zhat_of pointElevs cardinals j) as [e'|z] eqn:Hz.
  - rewrite (zhat_loop_cons_raise _ _ _ _ _ e') in Ho by done.
    injection Ho as <-. exists j. split; [by left|done].
  - rewrite (zhat_loop_cons_write _ _ _ _ _ z) in Ho by done.
    destruct (IH _ Ho) as (i & Hi & He). exists i. split; [by right|done].
Qed.

(** A row whose [FID] is not among the identifiers is never written, whether
    or not the loop raises. *)
Lemma zhat_loop_untouched pointElevs cardinals ids t k (p : Row) :
  t !! k = Some p -> FID p ∉ ids ->
  (zhat_loop pointElevs cardinals ids t).1.1 !! k = Some p.
Proof.
  revert t. induction ids as [|j ids IH]; intros t Hk Hn; [done|].
  apply not_elem_of_cons in Hn as [Hne Hn].
  destruct (zhat_of pointElevs cardinals j) as [e|z] eqn:Hz.
  - by rewrite (zhat_loop_cons_raise _ _ _ _ _ e).
  - rewrite (zhat_loop_cons_write _ _ _ _ _ z) by done. apply IH; [|done].
    rewrite list_lookup_fmap, Hk. simpl.
    destruct (FID p =? j) eqn:E; [|done]. apply Z.eqb_eq in E. done.
Qed.

Lemma zhat_loop_length pointElevs cardinals ids t :
  length (zhat_loop pointElevs cardinals ids t).1.1 = length t.
Proof.
  rewrite <- (length_map (fun _ => tt)), (zhat_loop_frame (fun _ => tt)) by done.
  apply length_map.
Qed.

Lemma calculate_zhat_log {S : SetOrder} pointFile cardinalFile :
  (calculate_zhat pointFile cardinalFile).1.2
  = match (calculate_zhat pointFile cardinalFile).2 with
    | None => [printArc ZHatCalculated]
    | Some _ => []
    end.
Proof.
  unfold calculate_zhat.
  pose proof (zhat_loop_events (map RasElev (rows pointFile)) (rows cardinalFile)
                (list_set (map Id (rows cardinalFile)))
                (rows (AddField_management pointFile Field_ZHat))) as Hev.
  destruct (zhat_loop _ _ _ _) as [[t ev] o]. simpl in *. by rewrite Hev.
Qed.

Lemma comprehension_length {A B} (f : A -> Exn + B) (l : list A) (bs : list B) :
  comprehension f l = inr bs -> length bs = length l.
Proof.
  revert bs. induction l as [|a l IH]; intros bs H; simpl in H.
  - by injection H as <-.
  - destruct (f a); [done|]. destruct (comprehension f l) as [|bs']; [done|].
    injection H as <-. simpl. by rewrite (IH bs').
Qed.

Lemma comprehension_inl {A B} (f : A -> Exn + B) (l : list A) (e : Exn) :
  comprehension f l = inl e -> exists a, a ∈ l /\ f a = inl e.
Proof.
  induction l as [|a l IH]; intros H; simpl in H; [done|].
  destruct (f a) as [e'|b] eqn:Ha.
  - injection H as <-. exists a. split; [by left|done].
  - destruct (comprehension f l) as [e'|bs]; [|done].
    injection H as <-. destruct IH as (x & Hx & Hfx); [done|].
    exists x. split; [by right|done].
Qed.

Lemma py_index_raises {A} (l : list A) (i : Z) (e : Exn) :
  py_index l i = inl e -> e = IndexError.
Proof.
  unfold py_index. destruct (_ && _); [|by intros [= <-]].
  destruct (l !! _); [done|by intros [= <-]].
Qed.

Lemma py_index_out_of_range {A} (l : list A) (i : Z) :
  i < - Z.of_nat (length l) \/ Z.of_nat (length l) <= i ->
  py_index l i = inl IndexError.
Proof.
  intros Hi. unfold py_index.
  destruct (i <? 0) eqn:Hneg.
  - apply Z.ltb_lt in Hneg.
    replace (0 <=? Z.of_nat (length l) + i) with false; [done|].
    symmetry. apply Z.leb_gt. lia.
  - apply Z.ltb_ge in Hneg.
    replace (i <? Z.of_nat (length l)) with false; [by rewrite andb_false_r|].
    symmetry. apply Z.ltb_ge. lia.
Qed.

(** The mean of an identifier that some cardinal record carries raises
    nothing but [IndexError] and [TypeError]. *)
Lemma zhat_of_raises pointElevs cardinals i e :
  i ∈ map Id cardinals ->
  zhat_of pointElevs cardinals i = inl e ->
  e = IndexError \/ e = TypeError.
Proof.
  intros Hi. unfold zhat_of.
  destruct (comprehension _ _) as [e'|bs] eqn:Hc.
  - intros [= <-]. apply comprehension_inl in Hc as (c & _ & Hdev).
    unfold deviation in Hdev.
    destruct (py_index pointElevs i) as [e''|pe] eqn:Hidx.
    + injection Hdev as <-. left. by apply (py_index_raises pointElevs i).
    + right. unfold py_sub in Hdev.
      destruct (RasElev c), pe; congruence.
  - apply comprehension_length in Hc.
    apply (proj1 (SearchCursor_Id_nonempty _ _)) in Hi.
    destruct bs; [|done]. simpl in Hc.
    destruct (SearchCursor _ cardinals); done.
Qed.

Section OneOrder.

Context {S : SetOrder}.

(** X5.  [calculate_zhat] never writes a plot whose [FID] is the [Id] of no
    cardinal record: such a row is as [AddField_management] left it after the
    call, also when the call raises.  With an empty cardinal file the point
    file is returned as [AddField_management] left it. *)
Theorem calculate_zhat_leaves_plots_without_cardinals :
  forall (pointFile cardinalFile : FeatureClass),
    (forall k p, rows pointFile !! k = Some p ->
       FID p ∉ map Id (rows cardinalFile) ->
       rows (calculate_zhat pointFile cardinalFile).1.1 !! k
       = Some (add_field Field_ZHat p))
    /\ (rows cardinalFile = [] ->
        calculate_zhat pointFile cardinalFile
        = (AddField_management pointFile Field_ZHat, [printArc ZHatCalculated], None)).
Proof.
  intros pointFile cardinalFile. split.
  - intros k p Hk Hn. rewrite calculate_zhat_rows.
    apply zhat_loop_untouched; [by rewrite AddField_lookup, Hk|].
    rewrite add_field_FID. intros Hin. apply Hn.
    by apply (proj1 (list_set_elem _ _)).
  - intros Hnil. unfold calculate_zhat. rewrite Hnil. simpl.
    assert (Hids : list_set [] = []).
    { destruct (list_set []) as [|i l] eqn:E; [done|].
      assert (Hi : i ∈ list_set []) by (rewrite E; by left).
      apply (proj1 (list_set_elem _ _)) in Hi. by apply elem_of_nil in Hi. }
    rewrite Hids. reflexivity.
Qed.

(** X6.  [calculate_zhat] raises when some cardinal record carries an
    identifier that is no index of the list of plot elevations (not below the
    number of plots, or below its negative): the call ends with an uncaught
    exception, the final message is not printed, and the plots with that [FID]
    are not written: they are as [AddField_management] left them. *)
Theorem calculate_zhat_identifier_out_of_range :
  forall (pointFile cardinalFile : FeatureClass) (c : Row),
    c ∈ rows cardinalFile ->
    Id c < - Z.of_nat (length (rows pointFile))
      \/ Z.of_nat (length (rows pointFile)) <= Id c ->
    let result := calculate_zhat pointFile cardinalFile in
    (exists e, result.2 = Some e)
    /\ result.1.2 = []
    /\ forall k p, rows pointFile !! k = Some p -> FID p = Id c ->
         rows result.1.1 !! k = Some (add_field Field_ZHat p).
Proof.
  intros pointFile cardinalFile c Hc Hrange result.
  assert (Hown : c ∈ SearchCursor (fun c' => Id c' =? Id c) (rows cardinalFile)).
  { apply SearchCursor_elem. split; [done|apply Z.eqb_refl]. }
  assert (Hz : zhat_of (map RasElev (rows pointFile)) (rows cardinalFile) (Id c)
               = inl IndexError).
  { unfold zhat_of.
    destruct (SearchCursor _ (rows cardinalFile)) as [|c0 own]; [by apply elem_of_nil in Hown|].
    simpl. unfold deviation.
    rewrite py_index_out_of_range; [done|]. by rewrite length_map. }
  destruct (zhat_loop_raises (map RasElev (rows pointFile)) (rows cardinalFile)
              (list_set (map Id (rows cardinalFile)))
              (rows (AddField_management pointFile Field_ZHat)) (Id c) IndexError)
    as [[e He] Hkept]; [|done|].
  { apply (proj2 (list_set_elem _ _)). apply list_elem_of_fmap. by exists c. }
  unfold result. rewrite calculate_zhat_log, calculate_zhat_uncaught, calculate_zhat_rows.
  rewrite He. split; [eauto|]. split; [done|].
  intros k p Hk Hfid. apply Hkept; [by rewrite AddField_lookup, Hk|].
  by rewrite add_field_FID.
Qed.

(** X7.  The only exceptions that leave [calculate_zhat] are [IndexError]
    (an identifier that is no index of the plot elevations) and [TypeError]
    (a missing elevation): the division never raises, because an identifier
    of the loop is carried by a cardinal record. *)
Theorem calculate_zhat_raises_only :
  forall (pointFile cardinalFile : FeatureClass) (e : Exn),
    (calculate_zhat pointFile cardinalFile).2 = Some e ->
    e = IndexError \/ e = TypeError.
Proof.
  intros pointFile cardinalFile e He. rewrite calculate_zhat_uncaught in He.
  apply zhat_loop_Some in He as (i & Hi & Hz).
  apply (proj1 (list_set_elem _ _)) in Hi.
  exact (zhat_of_raises _ _ i e Hi Hz).
Qed.

End OneOrder.

(** X8.  When [calculate_zhat] ends without raising, the order in which
    [list(set(ofids))] enumerates the identifiers does not matter: any other
    order gives the same point file, the same console and no exception. *)
Theorem calculate_zhat_order_independent :
  forall (S1 S2 : SetOrder) (pointFile cardinalFile : FeatureClass),
    (@calculate_zhat F T S1 pointFile cardinalFile).2 = None ->
    @calculate_zhat F T S2 pointFile cardinalFile
    = @calculate_zhat F T S1 pointFile cardinalFile.
Proof.
  intros S1 S2 pointFile cardinalFile Ho.
  set (pe := map RasElev (rows pointFile)).
  set (C := rows cardinalFile).
  set (t := rows (AddField_management pointFile Field_ZHat)).
  set (ids1 := @list_set S1 (map Id C)). set (ids2 := @list_set S2 (map Id C)).
  pose proof (@calculate_zhat_uncaught F T S1 pointFile cardinalFile) as Hu1.
  rewrite Ho in Hu1. symmetry in Hu1. fold pe C ids1 t in Hu1.
  assert (Hall1 : forall i, i ∈ ids1 -> exists z, zhat_of pe C i = inr z)
    by (by apply (zhat_loop_None pe C ids1 t)).
  assert (Hall2 : forall i, i ∈ ids2 -> exists z, zhat_of pe C i = inr z).
  { intros i Hi. apply Hall1. apply (proj2 (list_set_elem _ _)).
    by apply (proj1 (list_set_elem _ _)) in Hi. }
  destruct (zhat_loop_total pe C ids1 t Hall1) as [_ Hrows1].
  destruct (zhat_loop_total pe C ids2 t Hall2) as [Ho2 Hrows2].
  assert (Hrows : (zhat_loop pe C ids2 t).1.1 = (zhat_loop pe C ids1 t).1.1).
  { apply list_eq. intros k.
    destruct (t !! k) as [p|] eqn:Hk.
    - destruct (Hrows1 k p Hk) as [Hin1 Hout1].
      destruct (Hrows2 k p Hk) as [Hin2 Hout2].
      destruct (decide (FID p ∈ ids1)) as [Hmem|Hmem].
      + assert (Hmem2 : FID p ∈ ids2).
        { apply (proj2 (list_set_elem _ _)).
          by apply (proj1 (list_set_elem _ _)) in Hmem. }
        destruct (Hin1 Hmem) as (z1 & Hz1 & ->).
        destruct (Hin2 Hmem2) as (z2 & Hz2 & ->). congruence.
      + assert (Hmem2 : FID p ∉ ids2).
        { intros H. apply Hmem. apply (proj2 (list_set_elem _ _)).
          by apply (proj1 (list_set_elem _ _)) in H. }
        by rewrite (Hout1 Hmem), (Hout2 Hmem2).
    - apply lookup_ge_None in Hk.
      rewrite !(proj2 (lookup_ge_None _ _)); [done|..];
        by rewrite zhat_loop_length. }
  subst pe C ids1 ids2 t.
  pose proof (@calculate_zhat_rows F T S1 pointFile cardinalFile) as Hr1.
  pose proof (@calculate_zhat_rows F T S2 pointFile cardinalFile) as Hr2.
  pose proof (@calculate_zhat_uncaught F T S2 pointFile cardinalFile) as Hu2.
  pose proof (@calculate_zhat_reference F T S1 pointFile cardinalFile) as Hs1.
  pose proof (@calculate_zhat_reference F T S2 pointFile cardinalFile) as Hs2.
  pose proof (calculate_zhat_log (S:=S1) pointFile cardinalFile) as Hl1.
  pose proof (calculate_zhat_log (S:=S2) pointFile cardinalFile) as Hl2.
  rewrite Ho2 in Hu2. rewrite Hu2 in Hl2. rewrite Ho in Hl1.
  rewrite Hrows, <- Hr1 in Hr2.
  destruct (@calculate_zhat F T S2 pointFile cardinalFile) as [[[sr2 t2] ev2] o2].
  destruct (@calculate_zhat F T S1 pointFile cardinalFile) as [[[sr1 t1] ev1] o1].
  simpl in *. congruence.
Qed.

End ZhatMore.

(** ** The whole run, continued *)

Section RunMore.

Context {F : Float} {T : Storage} {M : Math F} {S : SetOrder} {G : Reprojection}.

Lemma raster_extract_raises pointFile n ws e :
  raster_extract pointFile n ws = inl e -> e = IOError /\ ws !! n = None.
Proof.
  unfold raster_extract. destruct (ws !! n) as [ras|]; [|by intros [= <-]].
  destruct (String.eqb _ _); by destruct (extract_elevation _ _ _).
Qed.

Lemma raster_extract_workspace pointFile n ws pf' ws' log :
  raster_extract pointFile n ws = inr (pf', ws', log) ->
  ws' = ws \/ ws' = delete outRaster ws.
Proof.
  intros H. apply raster_extract_inv in H as (ras & _ & [(_ & _ & ->)|(_ & _ & ->)]); eauto.
Qed.

(** X9.  A run leaves every raster of the workspace in place, except one
    named like the temporary projection: a dataset under another name is the
    same after the run, whatever happened, and when the raster exists and the
    names of the two references differ no dataset named [outRaster] is left,
    whether or not one existed before. *)
Theorem main_keeps_other_rasters :
  forall (inputPlots : FeatureClass) (inputRadius : num) (inputRaster : string)
         (ws : Workspace),
    let run := main inputPlots inputRadius inputRaster ws in
    (forall m, m <> outRaster -> run_workspace run !! m = ws !! m)
    /\ (forall ras, ws !! inputRaster = Some ras ->
          name (spatialReference inputPlots) <> name (rasterReference ras) ->
          run_workspace run !! outRaster = None).
Proof.
  intros P0 r n ws run. unfold run. rewrite main_unfold. cbv zeta.
  destruct (raster_extract P0 n ws) as [e|[[P1 ws1] ev1]] eqn:H1.
  { split; [done|]. intros ras Hn _. apply raster_extract_raises in H1 as [_ H1].
    congruence. }
  assert (Hws2 : forall ws2,
            ws2 = ws1 \/ ws2 = delete outRaster ws1 ->
            (forall m, m <> outRaster -> ws2 !! m = ws !! m)
            /\ (forall ras, ws !! n = Some ras ->
                  name (spatialReference P0) <> name (rasterReference ras) ->
                  ws2 !! outRaster = None)).
  { intros ws2 Hws2.
    apply raster_extract_inv in H1 as (ras & Hn & [(Heq & _ & ->)|(Heq & _ & ->)]).
    - split.
      + intros m Hm. destruct Hws2 as [->| ->]; [done|]. by rewrite lookup_delete_ne.
      + intros ras' Hn' Hne. rewrite Hn in Hn'. injection Hn' as <-.
        apply String.eqb_eq in Heq. done.
    - split.
      + intros m Hm. destruct Hws2 as [->| ->]; by rewrite !lookup_delete_ne.
      + intros _ _ _. destruct Hws2 as [->| ->]; by rewrite lookup_delete_eq. }
  destruct (raster_extract (create_cardinals P0 r).1 n ws1)
    as [e|[[C1 ws2] ev2]] eqn:H2; [by apply Hws2; left|].
  apply raster_extract_workspace in H2.
  destruct (calculate_zhat P1 C1).2; by apply Hws2.
Qed.





End RunMore.

(** ** A run in which every read succeeds *)

Section CompleteRun.

Context {F : Float} {T : Storage} {M : Math F}.

Lemma insertRow_fold_pairs fid l (out : list Row) :
  map (fun c => (Id c, SHAPE_XY c)) (fold_left (fun t xy => insertRow t xy fid) l out)
  = map (fun c => (Id c, SHAPE_XY c)) out ++ map (fun xy => (fid, xy)) l.
Proof.
  revert out. induction l as [|xy l IH]; intros out; simpl.
  - by rewrite app_nil_r.
  - rewrite IH. unfold insertRow. rewrite map_app. simpl.
    by rewrite <- app_assoc.
Qed.

Lemma create_cardinals_pairs pointFile plotRadius :
  map (fun c => (Id c, SHAPE_XY c)) (rows (create_cardinals pointFile plotRadius).1)
  = flat_map (block plotRadius) (rows pointFile).
Proof.
  unfold create_cardinals. simpl.
  assert (H : forall plots out,
            map (fun c => (Id c, SHAPE_XY c))
              (fold_left (insert_cardinals plotRadius) plots out)
            = map (fun c => (Id c, SHAPE_XY c)) out
              ++ flat_map (block plotRadius) plots).
  { induction plots as [|p plots IH]; intros out; simpl.
    - by rewrite app_nil_r.
    - rewrite IH. unfold insert_cardinals. rewrite insertRow_fold_pairs.
      by rewrite <- app_assoc. }
  by rewrite H.
Qed.

(** The elevations of the sampled records that carry identifier [i]. *)
Lemma sampled_own_elevations (elev : XY -> num) (i : Z) (L : list Row) :
  omap RasElev
    (SearchCursor (fun c => Id c =? i)
       (map (fun c => set_RasElev (elev (SHAPE_XY c)) c) L))
  = map (fun pr : Z * XY => elev pr.2)
      (filter (fun pr : Z * XY => pr.1 = i) (map (fun c => (Id c, SHAPE_XY c)) L)).
Proof.
  unfold SearchCursor. induction L as [|c L IH]; [done|].
  cbn [map]. rewrite !filter_cons. cbn [fst snd Id set_RasElev].
  destruct (Id c =? i) eqn:E.
  - apply Z.eqb_eq in E.
    rewrite decide_True by done. rewrite decide_True by done.
    cbn [omap list_omap map RasElev set_RasElev snd]. by rewrite IH.
  - apply Z.eqb_neq in E.
    rewrite decide_False by done. rewrite decide_False by done. exact IH.
Qed.

Lemma filter_block_same plotRadius (p : Row) :
  filter (fun pr : Z * XY => pr.1 = FID p) (block plotRadius p) = block plotRadius p.
Proof.
  unfold block. induction (offsets plotRadius (SHAPE_XY p)) as [|xy l IH]; [done|].
  cbn [map]. rewrite filter_cons. cbn [fst]. rewrite decide_True by done.
  by rewrite IH.
Qed.

Lemma filter_block_ne plotRadius (i : Z) (q : Row) :
  FID q <> i ->
  filter (fun pr : Z * XY => pr.1 = i) (block plotRadius q) = [].
Proof.
  intros Hq. unfold block.
  induction (offsets plotRadius (SHAPE_XY q)) as [|xy l IH]; [done|].
  cbn [map]. rewrite filter_cons. cbn [fst]. by rewrite decide_False.
Qed.

Lemma filter_block_other plotRadius (i : Z) (l : list Row) :
  Forall (fun q => FID q <> i) l ->
  filter (fun pr : Z * XY => pr.1 = i) (flat_map (block plotRadius) l) = [].
Proof.
  induction 1 as [|q l Hq _ IH]; [done|].
  cbn [flat_map]. by rewrite filter_app, IH, filter_block_ne.
Qed.

(** With [FID]s that are positions, the records carrying the identifier of a
    plot are the eight of that plot. *)
Lemma filter_blocks plotRadius (plots : list Row) (k : nat) (p : Row) :
  (forall j q, plots !! j = Some q -> FID q = Z.of_nat j) ->
  plots !! k = Some p ->
  filter (fun pr : Z * XY => pr.1 = FID p) (flat_map (block plotRadius) plots)
  = block plotRadius p.
Proof.
  intros Hfid Hk.
  rewrite <- (take_drop_middle plots k p Hk).
  rewrite flat_map_app. cbn [flat_map]. rewrite !filter_app.
  rewrite filter_block_same.
  rewrite !filter_block_other, ?app_nil_r; [done|..].
  - apply Forall_forall. intros q Hq. apply list_elem_of_lookup in Hq as [j Hj].
    rewrite lookup_drop in Hj. rewrite (Hfid _ _ Hj), (Hfid _ _ Hk). lia.
  - apply Forall_forall. intros q Hq. apply list_elem_of_lookup in Hq as [j Hj].
    pose proof (lookup_lt_Some _ _ _ Hj) as Hlt. rewrite length_take in Hlt.
    rewrite lookup_take_lt in Hj by lia.
    rewrite (Hfid _ _ Hj), (Hfid _ _ Hk). lia.
Qed.

Lemma extract_elevation_fst pointFile n ws :
  (extract_elevation pointFile n ws).1
  = with_rows pointFile
      (UpdateCursor (fun _ => true) (extract_body ws n)
         (rows (AddField_management pointFile Field_RasElev))).1.1.
Proof.
  unfold extract_elevation. by destruct (UpdateCursor _ _ _) as [[? ?] ?].
Qed.

Lemma calculate_tsi_fst pointFile plotRadius :
  (calculate_tsi pointFile plotRadius).1
  = with_rows pointFile (rows (calculate_tsi pointFile plotRadius).1).
Proof.
  unfold calculate_tsi. by destruct (UpdateCursor _ _ _) as [[? ?] ?].
Qed.

Lemma calculate_zhat_fst {S : SetOrder} pointFile cardinalFile :
  (calculate_zhat pointFile cardinalFile).1.1
  = with_rows pointFile
      (zhat_loop (map RasElev (rows pointFile)) (rows cardinalFile)
         (list_set (map Id (rows cardinalFile)))
         (rows (AddField_management pointFile Field_ZHat))).1.1.
Proof.
  unfold calculate_zhat. by destruct (zhat_loop _ _ _ _) as [[? ?] ?].
Qed.

(** A batch in which every read succeeds writes every elevation. *)
Lemma extract_elevation_all (elev : XY -> num) pointFile n ws (ras : Raster) :
  ws !! n = Some ras ->
  (forall p, p ∈ rows pointFile -> cell ras (SHAPE_XY p) = Some (elev (SHAPE_XY p))) ->
  (extract_elevation pointFile n ws).1
  = with_rows pointFile
      (map (fun p => set_RasElev (elev (SHAPE_XY p)) p) (rows pointFile)).
Proof.
  intros Hn Hcell. rewrite extract_elevation_fst, AddField_rows.
  destruct (UpdateCursor_all (extract_body ws n)
              (fun p => set_RasElev (elev (SHAPE_XY p)) p)
              (map (add_field Field_RasElev) (rows pointFile)))
    as [-> _].
  - intros r Hr. apply list_elem_of_fmap in Hr as (p & -> & Hp).
    rewrite extract_body_result, add_field_SHAPE_XY. unfold GetCellValue.
    by rewrite Hn, (Hcell p Hp).
  - f_equal. rewrite map_map. apply map_ext. intros p.
    by rewrite add_field_SHAPE_XY, set_RasElev_add_field.
Qed.

Context {G : Reprojection}.

Lemma raster_extract_all (elev : XY -> num) pointFile n ws (ras : Raster) :
  ws !! n = Some ras ->
  (forall p, p ∈ rows pointFile ->
     cell (effective_raster ras (spatialReference pointFile)) (SHAPE_XY p)
     = Some (elev (SHAPE_XY p))) ->
  exists log,
    raster_extract pointFile n ws
    = inr (with_rows pointFile
             (map (fun p => set_RasElev (elev (SHAPE_XY p)) p) (rows pointFile)),
           (if String.eqb (name (spatialReference pointFile))
                          (name (rasterReference ras))
            then ws else delete outRaster ws),
           log).
Proof.
  intros Hn Hcell. unfold effective_raster in Hcell.
  destruct (String.eqb _ _) eqn:Heq.
  - rewrite (raster_extract_direct _ _ _ _ Hn Heq).
    rewrite (extract_elevation_all elev _ _ _ ras Hn Hcell). eauto.
  - rewrite (raster_extract_projected _ _ _ _ Hn Heq).
    rewrite (extract_elevation_all elev _ outRaster _
               (project ras (spatialReference pointFile)));
      [eauto|apply lookup_insert_eq|done].
Qed.

End CompleteRun.

Section CompleteMain.

Context {F : Float} {T : Storage} {M : Math F} {S : SetOrder} {G : Reprojection}.

Implicit Types (elev : XY -> num).

(** The mean computed for a plot when its own elevation and those of all
    cardinal records have been read from [elev]. *)
Lemma zhat_of_complete elev plotRadius (plots cards0 : list Row) (k : nat) (p : Row) :
  (forall j q, plots !! j = Some q -> FID q = Z.of_nat j) ->
  plots !! k = Some p ->
  map (fun c => (Id c, SHAPE_XY c)) cards0 = flat_map (block plotRadius) plots ->
  zhat_of (map RasElev (map (fun q => set_RasElev (elev (SHAPE_XY q)) q) plots))
    (map (fun c => set_RasElev (elev (SHAPE_XY c)) c) cards0) (FID p)
  = inr (ring_mean elev plotRadius (SHAPE_XY p)).
Proof.
  intros Hfid Hk Hpairs.
  set (g := fun q : Row => set_RasElev (elev (SHAPE_XY q)) q).
  assert (Hown : omap RasElev (SearchCursor (fun c => Id c =? FID p) (map g cards0))
                 = map elev (offsets plotRadius (SHAPE_XY p))).
  { unfold g. rewrite sampled_own_elevations, Hpairs.
    rewrite (filter_blocks plotRadius plots k p Hfid Hk).
    unfold block. by rewrite map_map. }
  assert (Hne : SearchCursor (fun c => Id c =? FID p) (map g cards0) <> []).
  { intros Hnil. rewrite Hnil in Hown. done. }
  pose proof (zhat_of_valid (map g plots) (map g cards0) k (g p) (elev (SHAPE_XY p)))
    as Hz.
  cbn [g FID set_RasElev RasElev] in Hz. fold g in Hz.
  rewrite Hz; clear Hz.
  - rewrite Hown. unfold ring_mean. rewrite !map_map, !length_map, offsets_length.
    reflexivity.
  - by rewrite list_lookup_fmap, Hk.
  - by apply Hfid.
  - done.
  - apply Forall_fmap, Forall_forall. intros c _. by eexists.
  - done.
Qed.

(** When the raster is in the workspace, every plot and every cardinal
    point has a cell value, the [FID]s are the positions and the radius is
    not zero, the run ends normally with every column written. *)
Lemma main_all_read elev inputPlots inputRadius inputRaster ws (ras : Raster) :
  ws !! inputRaster = Some ras ->
  (name (spatialReference inputPlots) <> name (rasterReference ras) ->
   inputRaster <> outRaster) ->
  (forall p, p ∈ rows inputPlots ->
     cell (effective_raster ras (spatialReference inputPlots)) (SHAPE_XY p)
     = Some (elev (SHAPE_XY p))) ->
  (forall p xy, p ∈ rows inputPlots -> xy ∈ offsets inputRadius (SHAPE_XY p) ->
     cell (effective_raster ras (spatialReference inputPlots)) xy = Some (elev xy)) ->
  (forall k p, rows inputPlots !! k = Some p -> FID p = Z.of_nat k) ->
  is_zero inputRadius = false ->
  let run := main inputPlots inputRadius inputRaster ws in
  run_uncaught run = None
  /\ run_plots run
     = with_rows inputPlots (map (finished elev inputRadius) (rows inputPlots))
  /\ run_cardinals run
     = with_rows (create_cardinals inputPlots inputRadius).1
         (map (fun c => set_RasElev (elev (SHAPE_XY c)) c)
            (rows (create_cardinals inputPlots inputRadius).1)).
Proof.
  intros Hn Hout Hp Hc Hfid Hr run.
  set (ps := rows inputPlots) in *.
  set (cards0 := (create_cardinals inputPlots inputRadius).1) in *.
  set (g := fun q : Row => set_RasElev (elev (SHAPE_XY q)) q).
  (* the two samplings *)
  destruct (raster_extract_all elev inputPlots inputRaster ws ras Hn Hp) as [ev1 H1].
  set (ws1 := if String.eqb (name (spatialReference inputPlots))
                            (name (rasterReference ras))
              then ws else delete outRaster ws) in *.
  assert (Hn1 : ws1 !! inputRaster = Some ras).
  { unfold ws1. destruct (String.eqb _ _) eqn:Heq; [done|].
    apply String.eqb_neq in Heq. rewrite lookup_delete_ne; [done|].
    intros E. by apply (Hout Heq). }
  assert (Hc' : forall c, c ∈ rows cards0 ->
            cell (effective_raster ras (spatialReference cards0)) (SHAPE_XY c)
            = Some (elev (SHAPE_XY c))).
  { intros c Hcin. unfold cards0 at 1. rewrite create_cardinals_reference.
    assert (Hxy : SHAPE_XY c ∈ map SHAPE_XY (rows cards0)).
    { apply list_elem_of_fmap. by exists c. }
    unfold cards0 in Hxy. rewrite create_cardinals_XY in Hxy.
    apply list_elem_of_In, in_flat_map in Hxy as (p & Hpin & Hxy).
    apply (Hc p); by apply list_elem_of_In. }
  destruct (raster_extract_all elev cards0 inputRaster ws1 ras Hn1 Hc') as [ev2 H2].
  unfold run. rewrite main_unfold. cbv zeta. fold cards0. rewrite H1, H2.
  fold g. fold ps.
  set (P1 := with_rows inputPlots (map g ps)).
  set (C1 := with_rows cards0 (map g (rows cards0))).
  (* the aggregation *)
  assert (Hpairs : map (fun c => (Id c, SHAPE_XY c)) (rows cards0)
                   = flat_map (block inputRadius) ps)
    by apply create_cardinals_pairs.
  assert (HId : map Id (rows C1) = map Id (rows cards0)).
  { unfold C1. simpl. rewrite map_map. by apply map_ext. }
  assert (Hzhat : forall k p, ps !! k = Some p ->
            zhat_of (map RasElev (rows P1)) (rows C1) (FID p)
            = inr (ring_mean elev inputRadius (SHAPE_XY p))).
  { intros k p Hk. by apply (zhat_of_complete elev inputRadius ps (rows cards0) k p). }
  assert (Hids : forall i, i ∈ list_set (map Id (rows C1)) ->
            exists z, zhat_of (map RasElev (rows P1)) (rows C1) i = inr z).
  { intros i Hi. apply (proj1 (list_set_elem _ _)) in Hi. rewrite HId in Hi.
    unfold cards0 in Hi. rewrite create_cardinals_Id in Hi.
    apply flat_map_replicate_elem in Hi as (p & Hpin & ->).
    apply list_elem_of_lookup in Hpin as [k Hk]. eauto. }
  destruct (zhat_loop_total _ _ _ (rows (AddField_management P1 Field_ZHat)) Hids)
    as [Ho Hrows].
  set (g2 := fun q : Row => set_Zhat (ring_mean elev inputRadius (SHAPE_XY q)) (g q)).
  assert (Hrows2 : (zhat_loop (map RasElev (rows P1)) (rows C1)
                      (list_set (map Id (rows C1)))
                      (rows (AddField_management P1 Field_ZHat))).1.1
                   = map g2 ps).
  { apply list_eq. intros k.
    destruct (ps !! k) as [p|] eqn:Hk.
    - assert (Hk1 : rows (AddField_management P1 Field_ZHat) !! k
                    = Some (add_field Field_ZHat (g p))).
      { rewrite AddField_lookup. unfold P1. simpl. by rewrite list_lookup_fmap, Hk. }
      destruct (Hrows k _ Hk1) as [Hin _].
      rewrite add_field_FID in Hin.
      destruct Hin as (z & Hz & Hres).
      { apply (proj2 (list_set_elem _ _)). rewrite HId.
        unfold cards0. rewrite create_cardinals_Id.
        apply flat_map_replicate_elem. exists p.
        split; [|done]. apply list_elem_of_lookup. eauto. }
      change (FID (g p)) with (FID p) in Hz. rewrite (Hzhat k p Hk) in Hz.
      injection Hz as <-. rewrite Hres, set_Zhat_add_field.
      by rewrite list_lookup_fmap, Hk.
    - rewrite list_lookup_fmap, Hk. cbn [fmap option_fmap option_map].
      apply lookup_ge_None.
      rewrite zhat_loop_length, AddField_length. unfold P1. cbn [rows with_rows].
      rewrite length_map. by apply lookup_ge_None. }
  assert (HP2 : (calculate_zhat P1 C1).1.1 = with_rows inputPlots (map g2 ps)).
  { by rewrite calculate_zhat_fst, Hrows2. }
  rewrite calculate_zhat_uncaught, Ho, HP2.
  (* the normalisation *)
  assert (HP3 : (calculate_tsi (with_rows inputPlots (map g2 ps)) inputRadius).1
                = with_rows inputPlots (map (finished elev inputRadius) ps)).
  { rewrite calculate_tsi_fst. unfold with_rows. cbn [spatialReference]. f_equal.
    destruct (calculate_tsi_all (mkFeatureClass (spatialReference inputPlots) (map g2 ps))
                inputRadius Hr) as [-> _].
    - apply Forall_fmap, Forall_forall. intros p _. by eexists.
    - cbn [rows]. rewrite map_map. by apply map_ext. }
  simpl. by rewrite HP3.
Qed.

End CompleteMain.

Section CompleteTheorem.

Context {F : Float} {T : Storage} {M : Math F} {S : SetOrder} {G : Reprojection}.

(** X11.  When the raster is in the workspace, has a value [elev] at every
    plot and at each of the eight points around it, the [FID] of every plot is
    its position in the point file and the radius is not zero, the run ends
    without exception and writes, for every plot, its elevation, the mean of
    the eight deviations (cardinal elevation minus plot elevation, divided by
    eight) as z-hat, and z-hat divided by the radius as TSI; every cardinal
    record holds its elevation. *)
Theorem main_complete :
  forall (elev : XY -> num) (inputPlots : FeatureClass) (inputRadius : num)
         (inputRaster : string) (ws : Workspace) (ras : Raster),
    ws !! inputRaster = Some ras ->
    (name (spatialReference inputPlots) <> name (rasterReference ras) ->
     inputRaster <> outRaster) ->
    (forall p, p ∈ rows inputPlots ->
       cell (effective_raster ras (spatialReference inputPlots)) (SHAPE_XY p)
       = Some (elev (SHAPE_XY p))) ->
    (forall p xy, p ∈ rows inputPlots -> xy ∈ offsets inputRadius (SHAPE_XY p) ->
       cell (effective_raster ras (spatialReference inputPlots)) xy = Some (elev xy)) ->
    (forall k p, rows inputPlots !! k = Some p -> FID p = Z.of_nat k) ->
    is_zero inputRadius = false ->
    let run := main inputPlots inputRadius inputRaster ws in
    run_uncaught run = None
    /\ length (rows (run_plots run)) = length (rows inputPlots)
    /\ (forall k p, rows inputPlots !! k = Some p ->
          rows (run_plots run) !! k
          = Some (mkRow (FID p) (SHAPE_XY p) (Id p)
                    (Some (elev (SHAPE_XY p)))
                    (Some (ring_mean elev inputRadius (SHAPE_XY p)))
                    (Some (fdiv (ring_mean elev inputRadius (SHAPE_XY p)) inputRadius))))
    /\ Forall (fun c => RasElev c = Some (elev (SHAPE_XY c))) (rows (run_cardinals run)).
Proof.
  intros elev inputPlots inputRadius inputRaster ws ras Hn Hout Hp Hc Hfid Hr run.
  destruct (main_all_read elev inputPlots inputRadius inputRaster ws ras
              Hn Hout Hp Hc Hfid Hr) as (Ho & Hplots & Hcards).
  fold run in Ho, Hplots, Hcards. rewrite Hplots, Hcards. simpl.
  split; [done|]. split; [by rewrite length_map|]. split.
  - intros k p Hk. by rewrite list_lookup_fmap, Hk.
  - apply Forall_fmap, Forall_forall. by intros c _.
Qed.

End CompleteTheorem.

(** ** A run on shapefiles with records that were not sampled *)

Section ShapefileRun.

Context {F : Float} {M : Math F} {S : SetOrder} {G : Reprojection}.

#[local] Existing Instance shapefile.











End ShapefileRun.

(** ** Geometry and sign, in exact arithmetic *)

Section RealProperties.

#[local] Existing Instance real.
#[local] Existing Instance real_math.

Lemma subOffset_real (r : R) : subOffset r = (r * (R_sqrt.sqrt 2 / 2))%R.
Proof. unfold subOffset. simpl. rewrite cos_45_degrees. lra. Qed.

Lemma subOffset_square (r : R) : (subOffset r * subOffset r = r * r / 2)%R.
Proof.
  rewrite subOffset_real.
  assert (H : (R_sqrt.sqrt 2 * R_sqrt.sqrt 2 = 2)%R) by (apply sqrt_sqrt; lra).
  assert (E : (r * (R_sqrt.sqrt 2 / 2) * (r * (R_sqrt.sqrt 2 / 2))
               = r * r * (R_sqrt.sqrt 2 * R_sqrt.sqrt 2) / 4)%R) by field.
  rewrite E, H. field.
Qed.

Lemma subOffset_between (r : R) : (0 < r)%R -> (0 < subOffset r < r)%R.
Proof.
  intros Hr. rewrite subOffset_real.
  assert (H : (R_sqrt.sqrt 2 * R_sqrt.sqrt 2 = 2)%R) by (apply sqrt_sqrt; lra).
  assert (Hpos : (0 < R_sqrt.sqrt 2)%R) by (apply sqrt_lt_R0; lra).
  assert (Hlt : (R_sqrt.sqrt 2 < 2)%R) by nra.
  split; nra.
Qed.

(** X12.  In exact arithmetic the eight points written for a plot lie on
    the circle of radius [r] around it: the squared distance of each from the
    centre is [r * r]. *)
Theorem offsets_on_circle :
  forall (r : R) (c : XY),
    Forall (fun xy : XY =>
              ((fst xy - fst c) * (fst xy - fst c)
               + (snd xy - snd c) * (snd xy - snd c) = r * r)%R)
      (offsets r c).
Proof.
  intros r [x y]. pose proof (subOffset_square r) as Hd.
  unfold offsets. cbn -[subOffset].
  repeat (apply Forall_cons_2; [cbn -[subOffset]; nra|]). apply Forall_nil_2.
Qed.

(** X13.  In exact arithmetic and for a positive radius the eight points
    written for a plot are pairwise distinct. *)
Theorem offsets_distinct :
  forall (r : R) (c : XY), (0 < r)%R -> NoDup (offsets r c).
Proof.
  intros r [x y] Hr. pose proof (subOffset_between r Hr) as Hd.
  unfold offsets. cbn -[subOffset].
  generalize dependent (subOffset r). intros d Hd.
  repeat (apply NoDup_cons_2;
          [intros Hin;
           repeat (apply elem_of_cons in Hin as [Hin|Hin];
                   [injection Hin; intros; lra|]);
           by apply elem_of_nil in Hin|]).
  apply NoDup_nil_2.
Qed.

End RealProperties.

Section RealRun.

#[local] Existing Instance real.
#[local] Existing Instance real_math.

Context {T : Storage} {S : SetOrder} {G : Reprojection}.

Lemma is_zero_real (r : R) : r <> 0%R -> is_zero r = false.
Proof. intros Hr. simpl. by destruct (Req_dec_T r 0). Qed.

Lemma ring_mean_plane (a b c0 r : R) (c : XY) : ring_mean (plane a b c0) r c = 0%R.
Proof.
  destruct c as [x y]. unfold ring_mean, offsets, py_sum, plane.
  cbn -[subOffset]. generalize (subOffset r). intros d. field.
Qed.

Lemma ring_mean_sign (elev : XY -> R) (r : R) (c : XY) :
  (Forall (fun xy => (elev c < elev xy)%R) (offsets r c) ->
   (0 < ring_mean elev r c)%R)
  /\ (Forall (fun xy => (elev xy < elev c)%R) (offsets r c) ->
      (ring_mean elev r c < 0)%R).
Proof.
  destruct c as [x y]. unfold ring_mean, offsets, py_sum.
  cbn -[subOffset]. generalize (subOffset r). intros d.
  split; intros H; repeat (apply Forall_cons in H as [? H]); lra.
Qed.

(** X14.  In exact arithmetic the index of a tilted plane is zero: when the
    raster holds [a*x + b*y + c0] at every plot and cardinal point, the run
    ends normally and every plot has z-hat 0 and TSI 0, whatever the slope
    and the radius (not zero). *)
Theorem main_plane_has_zero_TSI :
  forall (a b c0 : R) (inputPlots : FeatureClass) (inputRadius : R)
         (inputRaster : string) (ws : Workspace) (ras : Raster),
    ws !! inputRaster = Some ras ->
    (name (spatialReference inputPlots) <> name (rasterReference ras) ->
     inputRaster <> outRaster) ->
    (forall xy, cell (effective_raster ras (spatialReference inputPlots)) xy
                = Some (plane a b c0 xy)) ->
    (forall k p, rows inputPlots !! k = Some p -> FID p = Z.of_nat k) ->
    inputRadius <> 0%R ->
    let run := main inputPlots inputRadius inputRaster ws in
    run_uncaught run = None
    /\ length (rows (run_plots run)) = length (rows inputPlots)
    /\ Forall (fun p => Zhat p = Some 0%R /\ TSI p = Some 0%R) (rows (run_plots run)).
Proof.
  intros a b c0 inputPlots r n ws ras Hn Hout Hcell Hfid Hr run.
  destruct (main_all_read (plane a b c0) inputPlots r n ws ras Hn Hout
              (fun p _ => Hcell _) (fun p xy _ _ => Hcell xy) Hfid (is_zero_real r Hr))
    as (Ho & Hplots & _).
  fold run in Ho, Hplots. rewrite Hplots. simpl.
  split; [done|]. split; [by rewrite length_map|].
  apply Forall_fmap, Forall_forall. intros p _.
  change (Zhat (finished (plane a b c0) r p) = Some 0%R
          /\ TSI (finished (plane a b c0) r p) = Some 0%R).
  unfold finished. cbn [Zhat TSI]. rewrite (ring_mean_plane a b c0 r (SHAPE_XY p)).
  split; [done|]. f_equal. simpl. field. exact Hr.
Qed.

(** X15.  In exact arithmetic and for a positive radius the sign of the
    index is that of the deviations: a plot lower than each of its eight
    cardinal points gets a positive z-hat and a positive TSI, a plot higher
    than each of them a negative z-hat and a negative TSI. *)
Theorem main_TSI_sign :
  forall (elev : XY -> R) (inputPlots : FeatureClass) (inputRadius : R)
         (inputRaster : string) (ws : Workspace) (ras : Raster) (k : nat) (p : Row),
    ws !! inputRaster = Some ras ->
    (name (spatialReference inputPlots) <> name (rasterReference ras) ->
     inputRaster <> outRaster) ->
    (forall xy, cell (effective_raster ras (spatialReference inputPlots)) xy
                = Some (elev xy)) ->
    (forall j q, rows inputPlots !! j = Some q -> FID q = Z.of_nat j) ->
    (0 < inputRadius)%R ->
    rows inputPlots !! k = Some p ->
    let run := main inputPlots inputRadius inputRaster ws in
    exists (z t : R) (p' : Row),
      rows (run_plots run) !! k = Some p' /\ Zhat p' = Some z /\ TSI p' = Some t
      /\ (Forall (fun xy => (elev (SHAPE_XY p) < elev xy)%R)
            (offsets inputRadius (SHAPE_XY p)) -> (0 < z)%R /\ (0 < t)%R)
      /\ (Forall (fun xy => (elev xy < elev (SHAPE_XY p))%R)
            (offsets inputRadius (SHAPE_XY p)) -> (z < 0)%R /\ (t < 0)%R).
Proof.
  intros elev inputPlots r n ws ras k p Hn Hout Hcell Hfid Hr Hk run.
  destruct (main_all_read elev inputPlots r n ws ras Hn Hout
              (fun p _ => Hcell _) (fun p xy _ _ => Hcell xy) Hfid
              (is_zero_real r ltac:(lra)))
    as (_ & Hplots & _).
  fold run in Hplots.
  exists (ring_mean elev r (SHAPE_XY p)), (ring_mean elev r (SHAPE_XY p) / r)%R,
         (finished elev r p).
  rewrite Hplots. cbn [rows with_rows]. rewrite list_lookup_fmap, Hk.
  split; [done|]. split; [done|]. split; [done|].
  destruct (ring_mean_sign elev r (SHAPE_XY p)) as [Hpos Hneg]. split.
  - intros H. specialize (Hpos H). split; [done|]. by apply Rdiv_lt_0_compat.
  - intros H. specialize (Hneg H). split; [done|].
    assert (Hinv : (0 < / r)%R) by (by apply Rinv_0_lt_compat).
    unfold Rdiv. nra.
Qed.

End RealRun.

(** ** How often a run projects *)

Section ProjectionCount.

Context {F : Float} {T : Storage} {M : Math F} {S : SetOrder} {G : Reprojection}.

Lemma projections_app (l1 l2 : list Event) :
  projections (l1 ++ l2) = (projections l1 + projections l2)%nat.
Proof. unfold projections. by rewrite filter_app, length_app. Qed.

Lemma projections_samples_only n (log : list Event) :
  Forall (samples_only n) log -> projections log = 0%nat.
Proof.
  unfold projections. induction 1 as [|e log [He _] _ IH]; [done|].
  rewrite filter_cons, decide_False; [done|]. by rewrite He.
Qed.

Lemma projections_report o : projections (report o) = 0%nat.
Proof. by destruct o. Qed.

Lemma raster_extract_projections pointFile n ws (ras : Raster) :
  ws !! n = Some ras ->
  exists pf' log,
    raster_extract pointFile n ws
    = inr (pf', (if String.eqb (name (spatialReference pointFile))
                               (name (rasterReference ras))
                 then ws else delete outRaster ws), log)
    /\ spatialReference pf' = spatialReference pointFile
    /\ projections log
       = if String.eqb (name (spatialReference pointFile)) (name (rasterReference ras))
         then 0%nat else 1%nat.
Proof.
  intros Hn. destruct (String.eqb _ _) eqn:Heq.
  - rewrite (raster_extract_direct _ _ _ _ Hn Heq). eexists _, _.
    split; [done|]. split; [apply extract_elevation_reference|].
    apply (projections_samples_only n), extract_elevation_samples_only.
  - rewrite (raster_extract_projected _ _ _ _ Hn Heq). eexists _, _.
    split; [done|]. split; [apply extract_elevation_reference|].
    change (?a :: ?l ++ ?r) with ([a] ++ l ++ r).
    rewrite !projections_app.
    by rewrite (projections_samples_only outRaster _
                  (extract_elevation_samples_only _ _ _)).
Qed.

(** X16.  A run projects the raster once for each of the two point files:
    when the raster is in the workspace under a name other than [outRaster],
    the console of the run shows no call of [ProjectRaster_management] if the
    names of the two references are equal and exactly two if they differ, the
    cardinal file having the reference of the point file. *)
Theorem main_projects_for_each_file :
  forall (inputPlots : FeatureClass) (inputRadius : num) (inputRaster : string)
         (ws : Workspace) (ras : Raster),
    ws !! inputRaster = Some ras ->
    inputRaster <> outRaster ->
    projections (run_console (main inputPlots inputRadius inputRaster ws))
    = if String.eqb (name (spatialReference inputPlots)) (name (rasterReference ras))
      then 0%nat else 2%nat.
Proof.
  intros P0 r n ws ras Hn Hne. rewrite main_unfold. cbv zeta.
  destruct (raster_extract_projections P0 n ws ras Hn)
    as (P1 & ev1 & -> & _ & Hev1).
  set (ws1 := if String.eqb (name (spatialReference P0)) (name (rasterReference ras))
              then ws else delete outRaster ws).
  assert (Hn1 : ws1 !! n = Some ras).
  { unfold ws1. destruct (String.eqb _ _); [done|]. by rewrite lookup_delete_ne. }
  destruct (raster_extract_projections (create_cardinals P0 r).1 n ws1 ras Hn1)
    as (C1 & ev2 & -> & _ & Hev2).
  rewrite create_cardinals_reference in Hev2.
  assert (Hrest : forall rest, projections rest = 0%nat ->
            projections ((create_cardinals P0 r).2 ++ ev1 ++ ev2 ++ rest)
            = if String.eqb (name (spatialReference P0)) (name (rasterReference ras))
              then 0%nat else 2%nat).
  { intros rest Hz. rewrite !projections_app, Hev1, Hev2, Hz.
    by destruct (String.eqb _ _). }
  destruct (calculate_zhat P1 C1).2 eqn:Ho; simpl run_console.
  - apply Hrest. by rewrite calculate_zhat_log, Ho.
  - apply Hrest. rewrite projections_app, calculate_zhat_log, Ho.
    rewrite calculate_tsi_console, projections_app, projections_report. done.
Qed.

End ProjectionCount.

(** * Further worked examples *)

Section FurtherBinary64Examples.

#[local] Existing Instance binary64.

Lemma calculate_tsi_zero_radius_witness :
  is_zero 0%float = true
  /\ (calculate_tsi (T:=geodatabase) second_has_zhat 0%float).1
     = AddField_management (T:=geodatabase) second_has_zhat Field_TSI
  /\ exists e, (calculate_tsi (T:=geodatabase) second_has_zhat 0%float).2
               = [printArc ErrorOccurred; print_exc e; printArc TSICalculated].
Proof.
  split; [reflexivity|].
  destruct (calculate_tsi_zero_radius (T:=geodatabase) second_has_zhat 0%float
              Logic.eq_refl) as [Hsame Hlog].
  split; [exact Hsame|]. apply Hlog. discriminate.
Defined.

Lemma extract_elevation_reads_in_order_witness :
  rows three_points !! 1%nat = Some (point 1 0 0)
  /\ GetCellValue (dem_workspace utm17) "dem.tif" (SHAPE_XY (point 1 0 0)) = inl ValueError
  /\ (extract_elevation (T:=shapefile) three_points "dem.tif" (dem_workspace utm17)).2
     = [ GetCellValue_management "dem.tif" (1, 1)%float;
         GetCellValue_management "dem.tif" (0, 0)%float;
         printArc ErrorOccurred; print_exc ValueError;
         printArc (ElevationAdded "dem.tif") ].
Proof.
  assert (H1 : rows three_points !! 1%nat = Some (point 1 0 0)) by reflexivity.
  assert (H2 : GetCellValue (dem_workspace utm17) "dem.tif" (SHAPE_XY (point 1 0 0))
               = inl ValueError) by (vm_compute; reflexivity).
  assert (H3 : forall j x, (j < 1)%nat -> rows three_points !! j = Some x ->
            exists v, GetCellValue (dem_workspace utm17) "dem.tif" (SHAPE_XY x) = inr v).
  { intros [|j] x Hj Hx; [|lia]. injection Hx as <-.
    exists 7%float. vm_compute. reflexivity. }
  split; [exact H1|]. split; [exact H2|].
  exact (extract_elevation_reads_in_order (T:=shapefile) three_points "dem.tif"
           (dem_workspace utm17) 1 (point 1 0 0) ValueError H1 H2 H3).
Defined.

Lemma calculate_zhat_identifier_out_of_range_witness :
  (exists e, (@calculate_zhat binary64 shapefile first_seen
                selected_plots selected_cardinals).2 = Some e)
  /\ (@calculate_zhat binary64 shapefile first_seen
        selected_plots selected_cardinals).1.2 = [].
Proof.
  destruct (@calculate_zhat_identifier_out_of_range binary64 shapefile first_seen
              selected_plots selected_cardinals (sampled_point 1 2 (Some 26%float)))
    as (He & Hlog & _).
  - right. left.
  - right. simpl. lia.
  - split; [exact He|exact Hlog].
Defined.

Lemma calculate_zhat_raises_only_witness :
  (@calculate_zhat binary64 shapefile first_seen selected_plots selected_cardinals).2
  = Some IndexError
  /\ (IndexError = IndexError \/ IndexError = TypeError).
Proof.
  assert (H : (@calculate_zhat binary64 shapefile first_seen
                 selected_plots selected_cardinals).2
              = Some IndexError) by (vm_compute; reflexivity).
  split; [exact H|].
  exact (@calculate_zhat_raises_only binary64 shapefile first_seen
           selected_plots selected_cardinals IndexError H).
Defined.

Lemma calculate_zhat_order_independent_witness :
  @list_set first_seen (map Id (rows two_sampled_cardinals)) = [1; 0]
  /\ @list_set last_seen (map Id (rows two_sampled_cardinals)) = [0; 1]
  /\ @calculate_zhat binary64 shapefile last_seen two_sampled_plots two_sampled_cardinals
     = @calculate_zhat binary64 shapefile first_seen two_sampled_plots two_sampled_cardinals.
Proof.
  split; [vm_compute; reflexivity|]. split; [vm_compute; reflexivity|].
  apply (@calculate_zhat_order_independent binary64 shapefile first_seen last_seen).
  vm_compute. reflexivity.
Defined.

End FurtherBinary64Examples.

Section FurtherRealExamples.

#[local] Existing Instance real.
#[local] Existing Instance real_math.
#[local] Existing Instance shapefile.
#[local] Existing Instance first_seen.
#[local] Existing Instance relabel.

Lemma surface_lookup (elev : XY -> R) :
  surface_workspace elev !! "dem.tif"%string = Some (surface elev).
Proof. apply lookup_singleton_eq. Qed.

Lemma surface_names (elev : XY -> R) :
  name (spatialReference centre_plot) <> name (rasterReference (surface elev)) ->
  "dem.tif"%string <> outRaster.
Proof. intros _. discriminate. Qed.

Lemma surface_cell (elev : XY -> R) (xy : XY) :
  cell (effective_raster (surface elev) (spatialReference centre_plot)) xy
  = Some (elev xy).
Proof. reflexivity. Qed.

Lemma centre_plot_numbered (k : nat) (p : Row) :
  rows centre_plot !! k = Some p -> FID p = Z.of_nat k.
Proof. destruct k as [|k]; [|done]. by intros [= <-]. Qed.

(** *** A plot whose cardinal points lie outside the raster *)










Lemma main_complete_witness :
  is_zero 1%R = false
  /\ run_uncaught (main centre_plot 1%R "dem.tif" (surface_workspace (plane 2 3 5)))
     = None
  /\ length (rows (run_plots
               (main centre_plot 1%R "dem.tif" (surface_workspace (plane 2 3 5)))))
     = 1%nat.
Proof.
  assert (Hr : is_zero 1%R = false) by (apply is_zero_real; lra).
  split; [exact Hr|].
  destruct (main_complete (plane 2 3 5) centre_plot 1%R "dem.tif"
              (surface_workspace (plane 2 3 5)) (surface (plane 2 3 5))
              (surface_lookup _) (surface_names _)
              (fun p _ => surface_cell _ _) (fun p xy _ _ => surface_cell _ xy)
              centre_plot_numbered Hr) as (Ho & Hlen & _).
  split; [exact Ho|exact Hlen].
Defined.

Lemma offsets_distinct_witness : (0 < 1)%R /\ NoDup (offsets 1%R (0%R, 0%R)).
Proof.
  assert (H : (0 < 1)%R) by lra.
  split; [exact H|]. exact (offsets_distinct 1%R (0%R, 0%R) H).
Defined.

Lemma main_plane_has_zero_TSI_witness :
  run_uncaught (main centre_plot 1%R "dem.tif" (surface_workspace (plane 2 3 5))) = None
  /\ Forall (fun p => Zhat p = Some 0%R /\ TSI p = Some 0%R)
       (rows (run_plots
                (main centre_plot 1%R "dem.tif" (surface_workspace (plane 2 3 5))))).
Proof.
  destruct (main_plane_has_zero_TSI 2 3 5 centre_plot 1%R "dem.tif"
              (surface_workspace (plane 2 3 5)) (surface (plane 2 3 5))
              (surface_lookup _) (surface_names _) (surface_cell _)
              centre_plot_numbered ltac:(lra)) as (Ho & _ & Hrows).
  split; [exact Ho|exact Hrows].
Defined.

Lemma bowl_rises_around_centre :
  Forall (fun xy => (bowl (SHAPE_XY inside_plot) < bowl xy)%R)
    (offsets 1%R (SHAPE_XY inside_plot)).
Proof.
  pose proof (subOffset_between 1%R ltac:(lra)) as Hd.
  unfold offsets, inside_plot, bowl. cbn -[subOffset].
  generalize dependent (subOffset 1%R). intros d Hd.
  repeat (apply Forall_cons_2; [cbn; nra|]). apply Forall_nil_2.
Qed.

Lemma main_TSI_sign_witness :
  exists (z t : R) (p' : Row),
    rows (run_plots (main centre_plot 1%R "dem.tif" (surface_workspace bowl))) !! 0%nat
    = Some p'
    /\ Zhat p' = Some z /\ TSI p' = Some t /\ (0 < z)%R /\ (0 < t)%R.
Proof.
  destruct (main_TSI_sign bowl centre_plot 1%R "dem.tif" (surface_workspace bowl)
              (surface bowl) 0%nat inside_plot
              (surface_lookup _) (surface_names _) (surface_cell _)
              centre_plot_numbered ltac:(lra) Logic.eq_refl)
    as (z & t & p' & Hrow & Hz & Ht & Hpit & _).
  destruct (Hpit bowl_rises_around_centre) as [Hzpos Htpos].
  exists z, t, p'. repeat split; assumption.
Defined.

Lemma main_projects_for_each_file_witness :
  foreign_workspace !! "dem.tif"%string
  = Some (mkRaster state_plane (fun xy => Some (plane 2 3 5 xy)))
  /\ projections (run_console (main centre_plot 1%R "dem.tif" foreign_workspace))
     = 2%nat.
Proof.
  assert (H : foreign_workspace !! "dem.tif"%string
              = Some (mkRaster state_plane (fun xy => Some (plane 2 3 5 xy))))
    by apply lookup_singleton_eq.
  split; [exact H|].
  exact (main_projects_for_each_file centre_plot 1%R "dem.tif" foreign_workspace _ H
           ltac:(discriminate)).
Defined.

End FurtherRealExamples.
